(** * CarInfo: the comparison-table scraper of [car_spider_playwright.py]

    A shallow embedding of [CarSpider.extract_car_info], [CarSpider.run],
    [process_car] and [process_all_cars].  The browser is an external
    collaborator: a page is represented by what its queries answer, a unit's
    world by what each navigation yields.  Python dictionaries are finite
    maps, [print] calls are messages appended to an event trace. *)

From Stdlib Require Import NArith Decimal.
From stdpp Require Import gmap list fin_maps.

#[local] Set Warnings "-clear-no-such-hyp".

(** ** Python strings

    A [str] is a sequence of Unicode code points. *)

Module PyStr.

Abbreviation pystr := (list N).

(** [str.strip()] without argument removes the characters for which
    [str.isspace] holds. *)
Definition isspace (c : N) : bool :=
  ((9 <=? c) && (c <=? 13) || (28 <=? c) && (c <=? 32)
   || (c =? 133) || (c =? 160) || (c =? 5760)
   || (8192 <=? c) && (c <=? 8202)
   || (c =? 8232) || (c =? 8233) || (c =? 8239) || (c =? 8287)
   || (c =? 12288))%N.

Fixpoint lstrip (s : pystr) : pystr :=
  match s with
  | c :: s' => if isspace c then lstrip s' else s
  | [] => []
  end.

Definition rstrip (s : pystr) : pystr := reverse (lstrip (reverse s)).

Definition strip (s : pystr) : pystr := rstrip (lstrip s).

(** Truth value of a string: [if s] holds for the non-empty ones. *)
Definition truthy (s : pystr) : bool :=
  match s with [] => false | _ :: _ => true end.

(** Decimal rendering of an index inside an f-string. *)
Fixpoint digits (u : Decimal.uint) : pystr :=
  match u with
  | Nil => []
  | D0 u => 48%N :: digits u
  | D1 u => 49%N :: digits u
  | D2 u => 50%N :: digits u
  | D3 u => 51%N :: digits u
  | D4 u => 52%N :: digits u
  | D5 u => 53%N :: digits u
  | D6 u => 54%N :: digits u
  | D7 u => 55%N :: digits u
  | D8 u => 56%N :: digits u
  | D9 u => 57%N :: digits u
  end.

Definition str_of_nat (n : nat) : pystr := digits (Nat.to_uint n).

End PyStr.
Import PyStr.

(** ** Literals of the source *)

(** ['——', '/', '空', 'N/A'] *)
Definition placeholders : list pystr :=
  [ [8212; 8212]; [47]; [31354]; [78; 47; 65] ]%N.

(** f'车型_{idx}' *)
Definition default_car_name (idx : nat) : pystr :=
  ([36710; 22411; 95]%N ++ str_of_nat idx).

(** '未知品牌' and '未知车型' *)
Definition unknown_brand : pystr := [26410; 30693; 21697; 29260]%N.
Definition unknown_model : pystr := [26410; 30693; 36710; 22411]%N.

(** ** Pages

    [text_content()] of an element answers a string, or fails (it raises, or
    answers [None], on which [.strip()] raises): [None] stands for the
    failure. *)

Abbreviation Cell := (option (list N)).

(** A [tr] of the parameter table: the queries on it raise, or they give the
    name cell (if any) and the value cells. *)
Inductive Row :=
| RowRaises
| RowCells (name_cell : option Cell) (value_cells : list Cell).

Inductive Selector :=
| SelTableBox | SelCarConfig | SelParameterList | SelConfigList | SelSpecList.

Record Page := {
  (** the two load-state waits of [wait_for_page_load] pass *)
  load_ok : bool;
  (** [wait_for_selector(selector, state='visible')] passes *)
  visible : Selector -> bool;
  (** the two load-state waits of [extract_car_info] pass *)
  settle_ok : bool;
  (** 'span.car-style-info' and the alternative selector for it *)
  car_styles_primary : list Cell;
  car_styles_fallback : list Cell;
  (** 'div.table-box.main-table-box tr.data-tr' and its alternative *)
  param_rows_primary : list Row;
  param_rows_fallback : list Row
}.

(** ** Diagnostics printed by the spider *)

Inductive msg :=
| MFoundContainer (s : Selector)
| MNoContainer
| MLoadError
| MTryAltStyles
| MNoStyles
| MFoundStyles (n : nat)
| MStyle (idx : nat) (car_name : pystr)
| MStyleError
| MTryAltRows
| MNoRows
| MFoundRows (n : nat)
| MExtract (car_name param_name param_value : pystr)
| MSkip (car_name param_name param_value : pystr)
| MValueError
| MMismatch (param_name : pystr) (cells names : nat)
| MExtractPartial (car_name param_name param_value : pystr)
| MPartialError
| MRowError
| MNoData
| MExtracted (n : nat)
| MExecError
| MSaved (name car_name : pystr)
| MSaveError
| MVisiting (url : pystr)
| MLoadRetry (n : nat)
| MExtractRetry (n : nat)
| MRunError
| MMaxRetries (car_name : pystr)
| MRunFailed
| MMissingUrl (subname : pystr)
| MStart (name subname url : pystr)
| MCarError (subname : pystr)
| MEmptyList
| MReadCars (n : nat)
| MAllSaved.

(** ** The attribute mapper: [CarSpider.extract_car_info] *)

Abbreviation AttrMap := (gmap (list N) (list N)).
Abbreviation ExtractionResult := (gmap (list N) (gmap (list N) (list N))).

(** [param_name and param_value and param_value not in ['——', '/', '空', 'N/A']] *)
Definition valid_param (param_name param_value : pystr) : bool :=
  truthy param_name && truthy param_value
  && negb (bool_decide (param_value ∈ placeholders)).

(** [all_car_data[car_name][param_name] = param_value]; the outer subscript
    raises [KeyError] ([None]) on a missing key. *)
Definition set_param (all_car_data : ExtractionResult)
    (car_name param_name param_value : pystr) : option ExtractionResult :=
  match all_car_data !! car_name with
  | Some params => Some (<[car_name := <[param_name := param_value]> params]> all_car_data)
  | None => None
  end.

(** The loop over the car styles, [idx] counting from 1. *)
Fixpoint collect_names (idx : nat) (car_styles : list Cell)
    (all_car_data : ExtractionResult)
  : list pystr * ExtractionResult * list msg :=
  match car_styles with
  | [] => ([], all_car_data, [])
  | car_style :: rest =>
      let '(car_name, out) :=
        match car_style with
        | Some text =>
            let car_name := strip text in
            let car_name := if truthy car_name then car_name else default_car_name idx in
            (car_name, [MStyle idx car_name])
        | None => (default_car_name idx, [MStyleError])
        end in
      let '(car_names, all_car_data', out') :=
        collect_names (S idx) rest (<[car_name := ∅]> all_car_data) in
      (car_name :: car_names, all_car_data', out ++ out')
  end.

(** The body of the loop of the equal-count branch. *)
Definition store_exact (param_name car_name : pystr) (value_cell : Cell)
    (all_car_data : ExtractionResult) : ExtractionResult * list msg :=
  match value_cell with
  | Some text =>
      let param_value := strip text in
      if valid_param param_name param_value then
        match set_param all_car_data car_name param_name param_value with
        | Some all_car_data' =>
            (all_car_data', [MExtract car_name param_name param_value])
        | None => (all_car_data, [MValueError])
        end
      else (all_car_data, [MSkip car_name param_name param_value])
  | None => (all_car_data, [MValueError])
  end.

(** [for i, (car_name, value_cell) in enumerate(zip(car_names, value_cells))] *)
Fixpoint align_exact (param_name : pystr) (pairs : list (pystr * Cell))
    (all_car_data : ExtractionResult) : ExtractionResult * list msg :=
  match pairs with
  | [] => (all_car_data, [])
  | (car_name, value_cell) :: rest =>
      let '(d1, o1) := store_exact param_name car_name value_cell all_car_data in
      let '(d2, o2) := align_exact param_name rest d1 in
      (d2, o1 ++ o2)
  end.

(** The body of the loop of the other branch, under [if i < len(car_names)]. *)
Definition store_partial (param_name : pystr) (car_names : list pystr)
    (i : nat) (value_cell : Cell) (all_car_data : ExtractionResult)
  : ExtractionResult * list msg :=
  match car_names !! i with
  | None => (all_car_data, [MPartialError])
  | Some car_name =>
      match value_cell with
      | Some text =>
          let param_value := strip text in
          if valid_param param_name param_value then
            match set_param all_car_data car_name param_name param_value with
            | Some all_car_data' =>
                (all_car_data', [MExtractPartial car_name param_name param_value])
            | None => (all_car_data, [MPartialError])
            end
          else (all_car_data, [])
      | None => (all_car_data, [MPartialError])
      end
  end.

(** [for i, value_cell in enumerate(value_cells)] *)
Fixpoint align_partial (param_name : pystr) (car_names : list pystr)
    (i : nat) (value_cells : list Cell) (all_car_data : ExtractionResult)
  : ExtractionResult * list msg :=
  match value_cells with
  | [] => (all_car_data, [])
  | value_cell :: rest =>
      let '(d1, o1) :=
        if i <? length car_names
        then store_partial param_name car_names i value_cell all_car_data
        else (all_car_data, []) in
      let '(d2, o2) := align_partial param_name car_names (S i) rest d1 in
      (d2, o1 ++ o2)
  end.

(** One iteration of [for row in param_rows]. *)
Definition process_row (car_names : list pystr) (row : Row)
    (all_car_data : ExtractionResult) : ExtractionResult * list msg :=
  match row with
  | RowRaises => (all_car_data, [MRowError])
  | RowCells None _ => (all_car_data, [])
  | RowCells (Some None) _ => (all_car_data, [MRowError])
  | RowCells (Some (Some text)) value_cells =>
      let param_name := strip text in
      if length value_cells =? length car_names then
        align_exact param_name (zip car_names value_cells) all_car_data
      else
        let '(d, o) := align_partial param_name car_names 0 value_cells all_car_data in
        (d, MMismatch param_name (length value_cells) (length car_names) :: o)
  end.

Fixpoint process_rows (car_names : list pystr) (param_rows : list Row)
    (all_car_data : ExtractionResult) : ExtractionResult * list msg :=
  match param_rows with
  | [] => (all_car_data, [])
  | row :: rest =>
      let '(d1, o1) := process_row car_names row all_car_data in
      let '(d2, o2) := process_rows car_names rest d1 in
      (d2, o1 ++ o2)
  end.

(** Truth value of a list and of a dictionary. *)
Definition nonempty {A} (l : list A) : bool :=
  match l with [] => false | _ :: _ => true end.

Definition dict_truthy {V} (d : gmap (list N) V) : bool :=
  negb (bool_decide (d = ∅)).

(** The column set built by the first loop of [extract_car_info]. *)
Definition car_names_of (car_styles : list Cell) : list pystr :=
  (collect_names 1 car_styles ∅).1.1.

Definition extract_car_info (page : Page) : option ExtractionResult * list msg :=
  if negb (settle_ok page) then (None, [MExecError]) else
  let '(car_styles, o_styles) :=
    if nonempty (car_styles_primary page) then (car_styles_primary page, [])
    else (car_styles_fallback page, [MTryAltStyles]) in
  if negb (nonempty car_styles) then (None, o_styles ++ [MNoStyles]) else
  let '(car_names, all_car_data, o_names) := collect_names 1 car_styles ∅ in
  let o1 := o_styles ++ MFoundStyles (length car_styles) :: o_names in
  let '(param_rows, o_rows) :=
    if nonempty (param_rows_primary page) then (param_rows_primary page, [])
    else (param_rows_fallback page, [MTryAltRows]) in
  if negb (nonempty param_rows) then (None, o1 ++ o_rows ++ [MNoRows]) else
  let '(all_car_data, o_params) := process_rows car_names param_rows all_car_data in
  let o2 := o1 ++ o_rows ++ MFoundRows (length param_rows) :: o_params in
  if negb (dict_truthy all_car_data) then (None, o2 ++ [MNoData])
  else (Some all_car_data, o2 ++ [MExtracted (size all_car_data)]).

(** ** The readiness detector: [CarSpider.wait_for_page_load] *)

Definition selectors : list Selector :=
  [SelTableBox; SelCarConfig; SelParameterList; SelConfigList; SelSpecList].

(** [for selector in selectors]: the first visible one ends the search. *)
Fixpoint first_visible (page : Page) (sels : list Selector) : option Selector :=
  match sels with
  | [] => None
  | selector :: rest =>
      if visible page selector then Some selector else first_visible page rest
  end.

Definition wait_for_page_load (page : Page) : bool * list msg :=
  if negb (load_ok page) then (false, [MLoadError]) else
  match first_visible page selectors with
  | Some selector => (true, [MFoundContainer selector])
  | None => (false, [MNoContainer])
  end.

(** ** The retry orchestrator: [CarSpider.run] *)

(** What the spider does to the outside, in order: the calls it makes to the
    browser, to the clock and to the file system, and what it prints. *)
Inductive event :=
| Print (m : msg)
| PlaywrightStart
| BrowserLaunch
| NewContext
| Goto (url : pystr)
| Sleep
| WriteFile (name car_name : pystr) (data : ExtractionResult)
| BrowserClose
| PlaywrightStop
| NewSpider (url name car_name : pystr)
| WriteAllCars.

Inductive Navigation :=
| NavRaises
| NavPage (page : Page).

(** What one unit meets: which of the browser calls pass, what the n-th
    [page.goto] of the run yields (counted from 0), whether the unit's file
    can be written. *)
Record World := {
  start_ok : bool;
  launch_ok : bool;
  context_ok : bool;
  goto : nat -> Navigation;
  write_ok : bool;
  close_ok : bool
}.

Record CarSpider := {
  sp_url : pystr;
  sp_name : pystr;
  sp_car_name : pystr
}.

(** [CarSpider.__init__]; the output directory is the one of the batch. *)
Definition new_spider (url name car_name : pystr) : CarSpider :=
  {| sp_url := url;
     sp_name := if truthy name then name else unknown_brand;
     sp_car_name := if truthy car_name then car_name else unknown_model |}.

Definition save_data (self : CarSpider) (w : World) (data : ExtractionResult)
  : option ExtractionResult * list event :=
  if write_ok w
  then (Some data, [WriteFile (sp_name self) (sp_car_name self) data;
                    Print (MSaved (sp_name self) (sp_car_name self))])
  else (None, [WriteFile (sp_name self) (sp_car_name self) data;
               Print MSaveError]).

Definition max_retries : nat := 3.

(** [while retry_count < max_retries]: every iteration that does not leave
    the loop adds one to [retry_count], so the loop is written by recursion
    on [remaining = max_retries - retry_count].  It gives [result_data], the
    final [retry_count] and the events. *)
Fixpoint retry_loop (self : CarSpider) (w : World) (remaining retry_count : nat)
  : option ExtractionResult * nat * list event :=
  match remaining with
  | 0 => (None, retry_count, [])
  | S remaining' =>
      let again (ev : list event) :=
        let '(r, n, ev') := retry_loop self w remaining' (S retry_count) in
        (r, n, ev ++ ev') in
      let visit := [Print (MVisiting (sp_url self)); Goto (sp_url self)] in
      match goto w retry_count with
      | NavRaises => again (visit ++ [Print MRunError; Sleep])
      | NavPage page =>
          let '(ready, o_load) := wait_for_page_load page in
          if negb ready
          then again (visit ++ map Print o_load ++ [Print (MLoadRetry (retry_count + 1))])
          else
            let '(car_info, o_info) := extract_car_info page in
            match car_info with
            | Some data =>
                if dict_truthy data then
                  let '(result_data, o_save) := save_data self w data in
                  (result_data, retry_count,
                   visit ++ map Print o_load ++ map Print o_info ++ o_save)
                else
                  again (visit ++ map Print o_load ++ map Print o_info
                         ++ [Print (MExtractRetry (retry_count + 1)); Sleep])
            | None =>
                again (visit ++ map Print o_load ++ map Print o_info
                       ++ [Print (MExtractRetry (retry_count + 1)); Sleep])
            end
      end
  end.

(** How a call ends: it returns a value, or an exception leaves it. *)
Inductive outcome (A : Type) :=
| Returned (r : A)
| Raised.
Arguments Returned {A} r.
Arguments Raised {A}.

(** The [try] block of [run] with its [except] clause: the value to return,
    the events, and whether [self.browser] has been bound. *)
Definition run_body (self : CarSpider) (w : World)
  : option ExtractionResult * list event * bool :=
  if negb (start_ok w) then (None, [PlaywrightStart; Print MRunFailed], false) else
  if negb (launch_ok w)
  then (None, [PlaywrightStart; BrowserLaunch; Print MRunFailed], false) else
  if negb (context_ok w)
  then (None, [PlaywrightStart; BrowserLaunch; NewContext; Print MRunFailed], true) else
  let '(result_data, retry_count, ev) := retry_loop self w max_retries 0 in
  (result_data,
   [PlaywrightStart; BrowserLaunch; NewContext] ++ ev
   ++ (if max_retries <=? retry_count then [Print (MMaxRetries (sp_car_name self))] else []),
   true).

(** [run]: the body, then the [finally] clause.  An exception in the clause
    ([self.browser] unbound, or [close()] raising) replaces the return. *)
Definition run (self : CarSpider) (w : World)
  : outcome (option ExtractionResult) * list event :=
  let '(result_data, ev, browser_bound) := run_body self w in
  if negb browser_bound then (Raised, ev)
  else if negb (close_ok w) then (Raised, ev ++ [BrowserClose])
  else (Returned result_data, ev ++ [BrowserClose; PlaywrightStop]).

(** ** The batch: [process_car] and [process_all_cars] *)

(** A record of [car_list.json]; a field is absent or holds a string. *)
Record CarInfo := {
  name : option pystr;
  subname : option pystr;
  url : option pystr
}.

(** [car_info.get(key, fallback)] *)
Definition get_or (fallback : pystr) (field : option pystr) : pystr :=
  match field with Some s => s | None => fallback end.

Definition process_car (car_info : CarInfo) (w : World)
  : option ExtractionResult * list event :=
  let name_ := get_or unknown_brand (name car_info) in
  let subname_ := get_or unknown_model (subname car_info) in
  match url car_info with
  | Some url_ =>
      if truthy url_ then
        let spider := new_spider url_ name_ subname_ in
        let '(res, ev) := run spider w in
        let start := [Print (MStart name_ subname_ url_);
                      NewSpider (sp_url spider) (sp_name spider) (sp_car_name spider)] in
        match res with
        | Returned r => (r, start ++ ev)
        | Raised => (None, start ++ ev ++ [Print (MCarError subname_)])
        end
      else (None, [Print (MMissingUrl subname_)])
  | None => (None, [Print (MMissingUrl subname_)])
  end.

Abbreviation AggregateDataset :=
  (gmap (list N) (gmap (list N) (gmap (list N) (gmap (list N) (list N))))).

(** [all_cars_data[brand_name][subname] = car_data], the brand created when
    it is missing. *)
Definition add_car (all_cars_data : AggregateDataset)
    (brand_name subname_ : pystr) (car_data : ExtractionResult) : AggregateDataset :=
  let all_cars_data :=
    match all_cars_data !! brand_name with
    | Some _ => all_cars_data
    | None => <[brand_name := ∅]> all_cars_data
    end in
  match all_cars_data !! brand_name with
  | Some models => <[brand_name := <[subname_ := car_data]> models]> all_cars_data
  | None => all_cars_data
  end.

(** [for car_info in car_list]; each unit comes with the world it meets. *)
Fixpoint process_units (car_list : list (CarInfo * World))
    (all_cars_data : AggregateDataset) : AggregateDataset * list event :=
  match car_list with
  | [] => (all_cars_data, [])
  | (car_info, w) :: rest =>
      let '(car_data, ev) := process_car car_info w in
      let all_cars_data :=
        match car_data with
        | Some data =>
            if dict_truthy data
            then add_car all_cars_data
                   (get_or unknown_brand (name car_info))
                   (get_or unknown_model (subname car_info)) data
            else all_cars_data
        | None => all_cars_data
        end in
      let '(all_cars_data', ev') := process_units rest all_cars_data in
      (all_cars_data', ev ++ ev')
  end.

(** [process_all_cars], from the list it has read to the combined file. *)
Definition process_all_cars (car_list : list (CarInfo * World))
  : option AggregateDataset * list event :=
  if negb (nonempty car_list) then (None, [Print MEmptyList]) else
  let '(all_cars_data, ev) := process_units car_list ∅ in
  (Some all_cars_data,
   Print (MReadCars (length car_list)) :: ev ++ [WriteAllCars; Print MAllSaved]).

(** Counting events of a trace. *)
Definition is_goto (e : event) : bool :=
  match e with Goto _ => true | _ => false end.
Definition is_launch (e : event) : bool :=
  match e with BrowserLaunch => true | _ => false end.
Definition is_close (e : event) : bool :=
  match e with BrowserClose => true | _ => false end.
Definition is_sleep (e : event) : bool :=
  match e with Sleep => true | _ => false end.

Definition count (p : event -> bool) (tr : list event) : nat :=
  length (List.filter p tr).

(** The events an iteration emits before it goes round again. *)
Definition plain (e : event) : bool :=
  match e with Print _ | Goto _ | Sleep => true | _ => false end.

(** ** Observations on a result *)

(** A dictionary is sanitized when every stored pair has a non-empty name and
    a value that is non-empty and no placeholder. *)
Definition clean (d : ExtractionResult) : Prop :=
  ∀ car_name params param_name param_value,
    d !! car_name = Some params → params !! param_name = Some param_value →
    param_name ≠ [] ∧ param_value ≠ [] ∧ param_value ∉ placeholders.

(** [all_car_data[car_name][param_name]] when both keys are there. *)
Definition get_param (d : ExtractionResult) (car_name param_name : pystr)
  : option pystr :=
  d !! car_name ≫= λ params, params !! param_name.

(** The header elements and the rows [extract_car_info] works on: those of
    the first selector when it finds any, else those of the alternative. *)
Definition found_car_styles (page : Page) : list Cell :=
  if nonempty (car_styles_primary page) then car_styles_primary page
  else car_styles_fallback page.

Definition found_param_rows (page : Page) : list Row :=
  if nonempty (param_rows_primary page) then param_rows_primary page
  else param_rows_fallback page.

(** [all_cars_data[brand_name][subname]] when both keys are there. *)
Definition get_car (all_cars_data : AggregateDataset) (brand_name subname_ : pystr)
  : option ExtractionResult :=
  all_cars_data !! brand_name ≫= λ models, models !! subname_.

Definition is_write (e : event) : bool :=
  match e with WriteFile _ _ _ => true | _ => false end.

(** What the attempt with [retry_count = n] yields when the loop reaches it:
    the dictionary handed to [save_data], if the attempt gets that far. *)
Definition attempt (w : World) (n : nat) : option ExtractionResult :=
  match goto w n with
  | NavRaises => None
  | NavPage page =>
      if (wait_for_page_load page).1 then
        match (extract_car_info page).1 with
        | Some data => if dict_truthy data then Some data else None
        | None => None
        end
      else None
  end.


(** ** Concrete pages and units used below *)

Module Sample.

Definition A : pystr := [65]%N.
Definition B : pystr := [66]%N.
Definition C : pystr := [67]%N.
(** '长度(mm)', '4500', '——' *)
Definition length_mm : pystr := [38271; 24230; 40; 109; 109; 41]%N.
Definition v4500 : pystr := [52; 53; 48; 48]%N.
Definition dash : pystr := [8212; 8212]%N.

Definition page_of (car_styles : list Cell) (param_rows : list Row) : Page :=
  {| load_ok := true; visible := fun _ => true; settle_ok := true;
     car_styles_primary := car_styles; car_styles_fallback := [];
     param_rows_primary := param_rows; param_rows_fallback := [] |}.

(** Three columns and one row with as many value cells. *)
Definition row3 : Row :=
  RowCells (Some (Some length_mm)) [Some v4500; Some v4500; Some dash].
Definition page3 : Page := page_of [Some A; Some B; Some C] [row3].
Definition data3 : ExtractionResult :=
  <[A := {[length_mm := v4500]}]> (<[B := {[length_mm := v4500]}]> {[C := ∅]}).

(** Three columns and one row with two value cells. *)
Definition row2 : Row :=
  RowCells (Some (Some length_mm)) [Some v4500; Some v4500].

(** Two headers with the same text, and a row with a value for each. *)
Definition v1 : pystr := [49]%N.
Definition v2 : pystr := [50]%N.
Definition row_dup : Row := RowCells (Some (Some length_mm)) [Some v1; Some v2].
Definition page_dup : Page := page_of [Some A; Some A] [row_dup].


(** One column, and one row whose only value is a placeholder. *)
Definition page_blank : Page :=
  page_of [Some A] [RowCells (Some (Some length_mm)) [Some dash]].

(** A page on which no container becomes visible. *)
Definition page_unready : Page :=
  {| load_ok := true; visible := fun _ => false; settle_ok := true;
     car_styles_primary := [Some A]; car_styles_fallback := [];
     param_rows_primary := [row3]; param_rows_fallback := [] |}.

Definition world_of (nav : nat -> Navigation) (can_write : bool) : World :=
  {| start_ok := true; launch_ok := true; context_ok := true;
     goto := nav; write_ok := can_write; close_ok := true |}.

Definition url1 : pystr := [104; 116; 116; 112; 58; 47; 47; 97]%N.
Definition url2 : pystr := [104; 116; 116; 112; 58; 47; 47; 98]%N.
Definition spider1 : CarSpider := new_spider url1 A B.

Definition unit1 : CarInfo := {| name := Some A; subname := Some B; url := Some url1 |}.
Definition unit2 : CarInfo := {| name := Some A; subname := Some C; url := Some url2 |}.
Definition unit_no_url : CarInfo := {| name := Some A; subname := Some B; url := None |}.

End Sample.

(** ** Sanitization *)

Lemma valid_param_spec param_name param_value :
  valid_param param_name param_value = true →
  param_name ≠ [] ∧ param_value ≠ [] ∧ param_value ∉ placeholders.
Proof.
  unfold valid_param. intros H.
  apply andb_prop in H as [H Hph]. apply andb_prop in H as [Hn Hv].
  apply negb_true_iff, bool_decide_eq_false in Hph.
  repeat split; [by destruct param_name | by destruct param_value | done].
Qed.

Lemma set_param_clean d car_name param_name param_value d' :
  clean d → valid_param param_name param_value = true →
  set_param d car_name param_name param_value = Some d' → clean d'.
Proof.
  intros Hd Hv. unfold set_param.
  destruct (d !! car_name) as [params|] eqn:Hc; [|done].
  intros [= <-] c ps l v Hl1 Hl2.
  destruct (decide (car_name = c)) as [->|Hne].
  - rewrite lookup_insert_eq in Hl1. injection Hl1 as <-.
    destruct (decide (param_name = l)) as [->|Hnl].
    + rewrite lookup_insert_eq in Hl2. injection Hl2 as <-.
      by apply valid_param_spec.
    + rewrite lookup_insert_ne in Hl2 by done. eauto.
  - rewrite lookup_insert_ne in Hl1 by done. eauto.
Qed.

Lemma store_exact_clean param_name car_name value_cell d :
  clean d → clean (store_exact param_name car_name value_cell d).1.
Proof.
  intros Hd. unfold store_exact.
  destruct value_cell as [text|]; [|done].
  destruct (valid_param _ _) eqn:Hv; [|done].
  destruct (set_param _ _ _ _) eqn:Hs; [|done].
  eapply set_param_clean; eauto.
Qed.

Lemma align_exact_clean param_name pairs d :
  clean d → clean (align_exact param_name pairs d).1.
Proof.
  revert d. induction pairs as [|[car_name value_cell] rest IH]; intros d Hd; [done|].
  simpl. pose proof (store_exact_clean param_name car_name value_cell d Hd) as H1.
  destruct (store_exact _ _ _ _) as [d1 o1]. specialize (IH d1 H1).
  by destruct (align_exact _ _ _).
Qed.

Lemma store_partial_clean param_name car_names i value_cell d :
  clean d → clean (store_partial param_name car_names i value_cell d).1.
Proof.
  intros Hd. unfold store_partial.
  destruct (car_names !! i); [|done].
  destruct value_cell as [text|]; [|done].
  destruct (valid_param _ _) eqn:Hv; [|done].
  destruct (set_param _ _ _ _) eqn:Hs; [|done].
  eapply set_param_clean; eauto.
Qed.

Lemma align_partial_clean param_name car_names i value_cells d :
  clean d → clean (align_partial param_name car_names i value_cells d).1.
Proof.
  revert i d. induction value_cells as [|value_cell rest IH]; intros i d Hd; [done|].
  simpl.
  assert (clean (if i <? length car_names
                 then store_partial param_name car_names i value_cell d
                 else (d, [])).1) as H1.
  { destruct (i <? length car_names); [by apply store_partial_clean | done]. }
  destruct (if i <? length car_names then _ else _) as [d1 o1].
  specialize (IH (S i) d1 H1). by destruct (align_partial _ _ _ _ _).
Qed.

(** Either branch of the alignment keeps the dictionary sanitized. *)
Lemma process_row_clean car_names row d :
  clean d → clean (process_row car_names row d).1.
Proof.
  intros Hd. destruct row as [|[[text|]|] value_cells]; try done.
  simpl. destruct (_ =? _).
  - by apply align_exact_clean.
  - pose proof (align_partial_clean (strip text) car_names 0 value_cells d Hd).
    by destruct (align_partial _ _ _ _ _).
Qed.

Lemma process_rows_clean car_names param_rows d :
  clean d → clean (process_rows car_names param_rows d).1.
Proof.
  revert d. induction param_rows as [|row rest IH]; intros d Hd; [done|].
  simpl. pose proof (process_row_clean car_names row d Hd) as H1.
  destruct (process_row _ _ _) as [d1 o1]. specialize (IH d1 H1).
  by destruct (process_rows _ _ _).
Qed.

Lemma collect_names_clean idx car_styles d :
  clean d → clean (collect_names idx car_styles d).1.2.
Proof.
  revert idx d. induction car_styles as [|car_style rest IH]; intros idx d Hd; [done|].
  simpl.
  destruct (match car_style with Some _ => _ | None => _ end) as [car_name out].
  assert (clean (<[car_name := ∅]> d)) as H1.
  { intros c ps l v Hl1 Hl2. destruct (decide (car_name = c)) as [->|Hne].
    - rewrite lookup_insert_eq in Hl1. injection Hl1 as <-.
      by rewrite lookup_empty in Hl2.
    - rewrite lookup_insert_ne in Hl1 by done. eauto. }
  specialize (IH (S idx) _ H1).
  by destruct (collect_names _ _ _) as [[? ?] ?].
Qed.

(** C1. Every pair stored in a dictionary that [extract_car_info] returns has
    a non-empty parameter name and a value that is non-empty and none of
    '——', '/', '空', 'N/A'; the rows go through [process_row], whose two
    alignment branches both keep this ([process_row_clean]). *)
Theorem extraction_result_clean (page : Page) (d : ExtractionResult)
    (car_name param_name param_value : pystr) (params : AttrMap) :
  (extract_car_info page).1 = Some d →
  d !! car_name = Some params →
  params !! param_name = Some param_value →
  param_name ≠ [] ∧ param_value ≠ [] ∧ param_value ∉ placeholders.
Proof.
  intros Hx. revert car_name params param_name param_value.
  change (clean d). revert Hx. unfold extract_car_info.
  destruct (settle_ok page); [|done]. simpl.
  destruct (if nonempty (car_styles_primary page) then _ else _) as [car_styles o_styles].
  destruct (nonempty car_styles); [|done]. simpl.
  pose proof (collect_names_clean 1 car_styles ∅) as Hn.
  destruct (collect_names 1 car_styles ∅) as [[car_names d0] o_names].
  destruct (if nonempty (param_rows_primary page) then _ else _) as [param_rows o_rows].
  destruct (nonempty param_rows); [|done]. simpl.
  pose proof (process_rows_clean car_names param_rows d0) as Hr.
  destruct (process_rows car_names param_rows d0) as [d1 o_params].
  destruct (dict_truthy d1); [|done]. simpl. intros [= <-].
  apply Hr, Hn. intros c ps l v Hl. by rewrite lookup_empty in Hl.
Qed.

Lemma extraction_result_clean_witness :
  Sample.length_mm ≠ [] ∧ Sample.v4500 ≠ [] ∧ Sample.v4500 ∉ placeholders.
Proof.
  apply (extraction_result_clean Sample.page3 Sample.data3 Sample.A
           Sample.length_mm Sample.v4500 {[Sample.length_mm := Sample.v4500]});
    reflexivity.
Defined.

(** ** The column set *)

Lemma default_car_name_nonempty idx : default_car_name idx ≠ [].
Proof. done. Qed.

Lemma collect_names_lookup idx car_styles d i :
  (collect_names idx car_styles d).1.1 !! i =
  (λ car_style : Cell,
     match car_style with
     | Some text =>
         if truthy (strip text) then strip text else default_car_name (idx + i)
     | None => default_car_name (idx + i)
     end) <$> car_styles !! i.
Proof.
  revert idx d i. induction car_styles as [|car_style rest IH]; intros idx d i; [done|].
  simpl.
  destruct (match car_style with Some _ => _ | None => _ end) as [car_name out] eqn:Hc.
  specialize (IH (S idx) (<[car_name := ∅]> d)).
  destruct (collect_names _ _ _) as [[car_names d'] out'].
  destruct i as [|i]; simpl.
  - rewrite Nat.add_0_r. by destruct car_style; injection Hc as <- _.
  - rewrite IH. by replace (S idx + i) with (idx + S i) by lia.
Qed.

Lemma collect_names_length idx car_styles d :
  length (collect_names idx car_styles d).1.1 = length car_styles.
Proof.
  revert idx d. induction car_styles as [|car_style rest IH]; intros idx d; [done|].
  simpl. destruct (match car_style with Some _ => _ | None => _ end) as [car_name out].
  specialize (IH (S idx) (<[car_name := ∅]> d)).
  destruct (collect_names _ _ _) as [[car_names d'] out']. simpl in *. by rewrite IH.
Qed.

(** Every column name is a key of the dictionary when the loop ends. *)
Lemma collect_names_keys idx car_styles d c :
  c ∈ (collect_names idx car_styles d).1.1 ∨ is_Some (d !! c) →
  is_Some ((collect_names idx car_styles d).1.2 !! c).
Proof.
  revert idx d. induction car_styles as [|car_style rest IH]; intros idx d.
  { simpl. intros [H|H]; [by apply elem_of_nil in H | done]. }
  simpl. destruct (match car_style with Some _ => _ | None => _ end) as [car_name out].
  specialize (IH (S idx) (<[car_name := ∅]> d)).
  destruct (collect_names _ _ _) as [[car_names d'] out']. simpl in *.
  intros H. apply IH.
  destruct (decide (car_name = c)) as [->|Hne].
  - right. rewrite lookup_insert_eq. eauto.
  - rewrite lookup_insert_ne by done.
    destruct H as [H|H]; [|by right]. apply elem_of_cons in H as [->|H]; [done | by left].
Qed.

(** C2, as the code has it. Every column identifier is non-empty, there is
    one per header element, and the identifier at position i is the stripped
    header text, or '车型_<i+1>' when that text is empty or cannot be read.
    A text equal to an earlier identifier is kept as it is. *)
Theorem car_names_positional (car_styles : list Cell) :
  Forall (λ car_name, car_name ≠ []) (car_names_of car_styles)
  ∧ length (car_names_of car_styles) = length car_styles
  ∧ ∀ i, car_names_of car_styles !! i =
         (λ car_style : Cell,
            match car_style with
            | Some text =>
                if truthy (strip text) then strip text else default_car_name (S i)
            | None => default_car_name (S i)
            end) <$> car_styles !! i.
Proof.
  unfold car_names_of. split_and!.
  - apply Forall_lookup_2. intros i car_name.
    rewrite collect_names_lookup.
    destruct (car_styles !! i) as [[text|]|]; simpl; intros [= <-]; [|done].
    by destruct (strip text).
  - apply collect_names_length.
  - intros i. apply collect_names_lookup.
Qed.

(** C2, as stated, fails: two headers with the same text give the same
    identifier twice. *)
Lemma car_names_collide :
  car_names_of [Some Sample.A; Some Sample.A] = [Sample.A; Sample.A]
  ∧ ¬ NoDup (car_names_of [Some Sample.A; Some Sample.A]).
Proof.
  split; [reflexivity|].
  intros H. apply NoDup_cons in H as [H _]. apply H. by left.
Qed.

(** ** Alignment *)

Lemma set_param_other d c l v d' c' :
  set_param d c l v = Some d' → c ≠ c' → d' !! c' = d !! c'.
Proof.
  unfold set_param. destruct (d !! c); [|done]. intros [= <-] Hne.
  by rewrite lookup_insert_ne.
Qed.

Lemma set_param_is_Some d c l v :
  is_Some (d !! c) → is_Some (set_param d c l v).
Proof. unfold set_param. intros [ps ->]. eauto. Qed.

Lemma set_param_get d c l v d' :
  set_param d c l v = Some d' → get_param d' c l = Some v.
Proof.
  unfold set_param, get_param. destruct (d !! c); [|done]. intros [= <-].
  rewrite lookup_insert_eq. simpl. by rewrite lookup_insert_eq.
Qed.

Lemma set_param_keys d c l v d' c' :
  set_param d c l v = Some d' → is_Some (d !! c') → is_Some (d' !! c').
Proof.
  unfold set_param. destruct (d !! c) eqn:Hc; [|done]. intros [= <-] H.
  destruct (decide (c = c')) as [->|Hne].
  - rewrite lookup_insert_eq. eauto.
  - by rewrite lookup_insert_ne.
Qed.

Lemma store_exact_other l c cell d c' :
  c ≠ c' → (store_exact l c cell d).1 !! c' = d !! c'.
Proof.
  intros Hne. unfold store_exact. destruct cell as [text|]; [|done].
  destruct (valid_param _ _); [|done].
  destruct (set_param _ _ _ _) eqn:Hs; [|done].
  simpl. eauto using set_param_other.
Qed.

Lemma store_exact_keys l c cell d c' :
  is_Some (d !! c') → is_Some ((store_exact l c cell d).1 !! c').
Proof.
  intros H. unfold store_exact. destruct cell as [text|]; [|done].
  destruct (valid_param _ _); [|done].
  destruct (set_param _ _ _ _) eqn:Hs; [|done].
  simpl. eauto using set_param_keys.
Qed.

Lemma store_exact_get l c text d :
  is_Some (d !! c) →
  get_param (store_exact l c (Some text) d).1 c l =
  if valid_param l (strip text) then Some (strip text) else get_param d c l.
Proof.
  intros H. unfold store_exact. destruct (valid_param _ _); [|done].
  destruct (set_param_is_Some d c l (strip text) H) as [d' Hs]. rewrite Hs.
  simpl. eauto using set_param_get.
Qed.

Lemma align_exact_other l pairs d c' :
  c' ∉ pairs.*1 → (align_exact l pairs d).1 !! c' = d !! c'.
Proof.
  revert d. induction pairs as [|[c cell] rest IH]; intros d Hnot; [done|].
  simpl in *. apply not_elem_of_cons in Hnot as [Hne Hnot].
  pose proof (store_exact_other l c cell d c' (not_eq_sym Hne)) as H1.
  destruct (store_exact _ _ _ _) as [d1 o1]. specialize (IH d1 Hnot).
  destruct (align_exact _ _ _). simpl in *. congruence.
Qed.

Lemma align_exact_get l pairs d i c text :
  NoDup pairs.*1 → (∀ c', c' ∈ pairs.*1 → is_Some (d !! c')) →
  pairs !! i = Some (c, Some text) →
  get_param (align_exact l pairs d).1 c l =
  if valid_param l (strip text) then Some (strip text) else get_param d c l.
Proof.
  revert d i. induction pairs as [|[c0 cell0] rest IH]; intros d i Hnd Hkeys Hi; [done|].
  simpl in *. apply NoDup_cons in Hnd as [Hfresh Hnd].
  destruct i as [|i]; simpl in Hi.
  - injection Hi as -> ->.
    pose proof (store_exact_get l c text d (Hkeys c ltac:(by left))) as H1.
    destruct (store_exact _ _ _ _) as [d1 o1].
    pose proof (align_exact_other l rest d1 c Hfresh) as H2.
    destruct (align_exact _ _ _) as [d2 o2]. simpl in *.
    unfold get_param in *. by rewrite H2.
  - assert (c ≠ c0) as Hne.
    { intros ->. apply Hfresh. apply list_elem_of_fmap.
      exists (c0, Some text). split; [done|]. by eapply list_elem_of_lookup_2. }
    pose proof (store_exact_other l c0 cell0 d c (not_eq_sym Hne)) as H1.
    assert (∀ c', c' ∈ rest.*1 → is_Some ((store_exact l c0 cell0 d).1 !! c')) as Hk.
    { intros c' Hc'. apply store_exact_keys, Hkeys. by right. }
    destruct (store_exact _ _ _ _) as [d1 o1].
    specialize (IH d1 i Hnd Hk Hi).
    destruct (align_exact _ _ _) as [d2 o2]. simpl in *.
    rewrite IH. unfold get_param. by rewrite H1.
Qed.

Lemma store_partial_data l car_names i cell d c :
  car_names !! i = Some c →
  (store_partial l car_names i cell d).1 = (store_exact l c cell d).1.
Proof.
  intros Hi. unfold store_partial, store_exact. rewrite Hi.
  destruct cell as [text|]; [|done].
  destruct (valid_param _ _); [|done].
  by destruct (set_param _ _ _ _).
Qed.

(** From position [i] on, the loop of the mismatch branch stores what the
    zip of the remaining names with the cells stores. *)
Lemma align_partial_zip l car_names i value_cells d :
  (align_partial l car_names i value_cells d).1 =
  (align_exact l (zip (drop i car_names) value_cells) d).1.
Proof.
  revert i d. induction value_cells as [|cell rest IH]; intros i d.
  { simpl. by destruct (drop i car_names). }
  simpl. destruct (Nat.ltb_spec i (length car_names)) as [Hlt|Hge].
  - destruct (lookup_lt_is_Some_2 car_names i Hlt) as [c Hc].
    rewrite (drop_S _ _ _ Hc). simpl.
    pose proof (store_partial_data l car_names i cell d c Hc) as H1.
    destruct (store_partial _ _ _ _ _) as [d1 o1].
    destruct (store_exact _ _ _ _) as [d1' o1']. simpl in H1. subst d1'.
    specialize (IH (S i) d1).
    destruct (align_partial _ _ _ _ _) as [d2 o2].
    by destruct (align_exact _ _ _) as [d2' o2'].
  - rewrite (drop_ge car_names i) by lia. simpl.
    specialize (IH (S i) d). rewrite (drop_ge car_names (S i)) in IH by lia.
    by destruct (align_partial _ _ _ _ _) as [d2 o2].
Qed.



(** A column that gets no valid value from the pairs keeps its entries. *)
Lemma align_exact_silent l pairs d c :
  (∀ j t, pairs !! j = Some (c, Some t) → valid_param l (strip t) = false) →
  (align_exact l pairs d).1 !! c = d !! c.
Proof.
  revert d. induction pairs as [|[c0 cell0] rest IH]; intros d Hno; [done|].
  simpl.
  assert ((store_exact l c0 cell0 d).1 !! c = d !! c) as H1.
  { destruct (decide (c0 = c)) as [->|Hne]; [|by apply store_exact_other].
    unfold store_exact. destruct cell0 as [t|]; [|done].
    by rewrite (Hno 0 t eq_refl). }
  destruct (store_exact _ _ _ _) as [d1 o1].
  assert ((align_exact l rest d1).1 !! c = d1 !! c) as H2.
  { apply IH. intros j t Hj. by apply (Hno (S j)). }
  destruct (align_exact _ _ _) as [d2 o2]. simpl in *. congruence.
Qed.

(** The last valid value paired with a column is the one the column holds. *)
Lemma align_exact_last l pairs d i c t :
  (∀ c', c' ∈ pairs.*1 → is_Some (d !! c')) →
  pairs !! i = Some (c, Some t) →
  valid_param l (strip t) = true →
  (∀ j t', i < j → pairs !! j = Some (c, Some t') → valid_param l (strip t') = false) →
  get_param (align_exact l pairs d).1 c l = Some (strip t).
Proof.
  revert d i. induction pairs as [|[c0 cell0] rest IH]; intros d i Hkeys Hi Hv Hlater; [done|].
  simpl in *. destruct i as [|i]; simpl in Hi.
  - injection Hi as -> ->.
    pose proof (store_exact_get l c t d (Hkeys c ltac:(by left))) as H1.
    rewrite Hv in H1.
    destruct (store_exact _ _ _ _) as [d1 o1].
    assert ((align_exact l rest d1).1 !! c = d1 !! c) as H2.
    { apply align_exact_silent. intros j t' Hj. apply (Hlater (S j)); [lia|done]. }
    destruct (align_exact _ _ _) as [d2 o2]. simpl in *.
    unfold get_param in *. by rewrite H2.
  - assert (∀ c', c' ∈ rest.*1 → is_Some ((store_exact l c0 cell0 d).1 !! c')) as Hk.
    { intros c' Hc'. apply store_exact_keys, Hkeys. by right. }
    destruct (store_exact _ _ _ _) as [d1 o1].
    assert (get_param (align_exact l rest d1).1 c l = Some (strip t)) as H2.
    { apply (IH d1 i); try done. intros j t' Hj. apply (Hlater (S j)). lia. }
    by destruct (align_exact _ _ _) as [d2 o2].
Qed.

(** C3, as the code has it. In a row with a readable name and as many value
    cells as there are columns, the pairs (column name at index i, value at
    index i) are stored in the order of the indices.  After the row, a
    column holds under the row's name the stripped value of the last index
    that carries the column's name and a valid value, and keeps its entries
    when no index carries its name with a valid value; so with pairwise
    distinct column names column i holds the value at index i when it is
    valid and what it held before otherwise.  A row without a readable name
    stores nothing.  On three columns with the row '长度(mm)' : '4500',
    '4500', '——' the first two columns get '长度(mm)' : '4500' and the third
    gets nothing. *)
Theorem exact_alignment :
  (∀ (car_names : list pystr) (param_text : pystr) (value_cells : list Cell)
     (d : ExtractionResult) (i : nat) (car_name text : pystr),
     length value_cells = length car_names →
     (∀ c, c ∈ car_names → is_Some (d !! c)) →
     car_names !! i = Some car_name →
     value_cells !! i = Some (Some text) →
     valid_param (strip param_text) (strip text) = true →
     (∀ j text', i < j → car_names !! j = Some car_name →
                 value_cells !! j = Some (Some text') →
                 valid_param (strip param_text) (strip text') = false) →
     get_param
       (process_row car_names (RowCells (Some (Some param_text)) value_cells) d).1
       car_name (strip param_text)
     = Some (strip text))
  ∧ (∀ (car_names : list pystr) (param_text : pystr) (value_cells : list Cell)
       (d : ExtractionResult) (car_name : pystr),
       length value_cells = length car_names →
       (∀ j text', car_names !! j = Some car_name →
                   value_cells !! j = Some (Some text') →
                   valid_param (strip param_text) (strip text') = false) →
       (process_row car_names (RowCells (Some (Some param_text)) value_cells) d).1
         !! car_name
       = d !! car_name)
  ∧ (∀ (car_names : list pystr) (param_text : pystr) (value_cells : list Cell)
       (d : ExtractionResult) (i : nat) (car_name text : pystr),
       NoDup car_names →
       length value_cells = length car_names →
       (∀ c, c ∈ car_names → is_Some (d !! c)) →
       car_names !! i = Some car_name →
       value_cells !! i = Some (Some text) →
       get_param
         (process_row car_names (RowCells (Some (Some param_text)) value_cells) d).1
         car_name (strip param_text)
       = if valid_param (strip param_text) (strip text)
         then Some (strip text)
         else get_param d car_name (strip param_text))
  ∧ (∀ (car_names : list pystr) (value_cells : list Cell) (d : ExtractionResult),
       (process_row car_names RowRaises d).1 = d
       ∧ (process_row car_names (RowCells None value_cells) d).1 = d
       ∧ (process_row car_names (RowCells (Some None) value_cells) d).1 = d)
  ∧ (let d := (process_row [Sample.A; Sample.B; Sample.C] Sample.row3
                 (<[Sample.A := ∅]> (<[Sample.B := ∅]> {[Sample.C := ∅]}))).1 in
     get_param d Sample.A Sample.length_mm = Some Sample.v4500
     ∧ get_param d Sample.B Sample.length_mm = Some Sample.v4500
     ∧ d !! Sample.C = Some ∅)
  ∧ (extract_car_info Sample.page3).1 = Some Sample.data3.
Proof.
  assert (∀ (car_names : list pystr) (value_cells : list Cell) j c cell,
            zip car_names value_cells !! j = Some (c, cell) →
            car_names !! j = Some c ∧ value_cells !! j = Some cell) as Hzip.
  { intros car_names value_cells j c cell Hj.
    rewrite lookup_zip_with in Hj.
    destruct (car_names !! j) as [c'|]; [|done]. simpl in Hj.
    destruct (value_cells !! j) as [cell'|]; [|done]. simpl in Hj.
    by injection Hj as -> ->. }
  assert (∀ (car_names : list pystr) (value_cells : list Cell),
            length value_cells = length car_names →
            (zip car_names value_cells).*1 = car_names) as Hfst.
  { intros car_names value_cells Hlen. apply fst_zip. lia. }
  split_and!; [| | | |by vm_compute|reflexivity].
  - intros car_names param_text value_cells d i car_name text Hlen Hkeys Hc Hv Hok Hlater.
    simpl. rewrite Hlen, Nat.eqb_refl.
    apply (align_exact_last _ _ _ i); rewrite ?Hfst; try done.
    + rewrite lookup_zip_with, Hc. simpl. by rewrite Hv.
    + intros j text' Hlt Hj. apply Hzip in Hj as [? ?]. by apply (Hlater j).
  - intros car_names param_text value_cells d car_name Hlen Hno.
    simpl. rewrite Hlen, Nat.eqb_refl.
    apply align_exact_silent. intros j text' Hj. apply Hzip in Hj as [? ?].
    by apply (Hno j).
  - intros car_names param_text value_cells d i car_name text Hnd Hlen Hkeys Hc Hv.
    simpl. rewrite Hlen, Nat.eqb_refl.
    apply (align_exact_get _ _ _ i); rewrite ?Hfst; try done.
    rewrite lookup_zip_with, Hc. simpl. by rewrite Hv.
  - done.
Qed.

Lemma exact_alignment_witness :
  get_param
    (process_row [Sample.A; Sample.A] Sample.row_dup {[Sample.A := ∅]}).1
    Sample.A (strip Sample.length_mm)
  = Some (strip Sample.v2).
Proof.
  apply (proj1 exact_alignment [Sample.A; Sample.A] Sample.length_mm
           [Some Sample.v1; Some Sample.v2] {[Sample.A := ∅]} 1 Sample.A Sample.v2).
  - reflexivity.
  - intros c Hc. repeat (apply elem_of_cons in Hc as [->|Hc]; [vm_compute; eauto|]).
    by apply elem_of_nil in Hc.
  - reflexivity.
  - reflexivity.
  - reflexivity.
  - intros j text' Hlt Hj Hv. destruct j as [|[|j]]; [lia|lia|done].
Defined.

(** C3, as stated, fails: with two headers of the same text the column list
    is [A; A]; the row has one value per column, both valid, and after it
    the entry of column 0 holds the value at index 1, not the one at
    index 0. *)
Lemma exact_alignment_collision :
  car_names_of [Some Sample.A; Some Sample.A] = [Sample.A; Sample.A]
  ∧ valid_param Sample.length_mm Sample.v1 = true
  ∧ valid_param Sample.length_mm Sample.v2 = true
  ∧ (extract_car_info Sample.page_dup).1
    = Some {[Sample.A := {[Sample.length_mm := Sample.v2]}]}
  ∧ ¬ (∀ d, (extract_car_info Sample.page_dup).1 = Some d →
            get_param d Sample.A Sample.length_mm = Some Sample.v1).
Proof.
  split_and!; try reflexivity.
  intros H. specialize (H _ eq_refl). vm_compute in H. discriminate H.
Qed.

Lemma length_zip_min {X Y} (xs : list X) (ys : list Y) :
  length (zip xs ys) = length ys `min` length xs.
Proof.
  revert ys. induction xs as [|x xs IH]; intros [|y ys]; simpl; try done.
  by rewrite IH.
Qed.





(** ** The emptiness test of [extract_car_info] *)

Lemma align_exact_keys l pairs d c :
  is_Some (d !! c) → is_Some ((align_exact l pairs d).1 !! c).
Proof.
  revert d. induction pairs as [|[c0 cell0] rest IH]; intros d H; [done|].
  simpl. pose proof (store_exact_keys l c0 cell0 d c H) as H1.
  destruct (store_exact _ _ _ _) as [d1 o1]. specialize (IH d1 H1).
  by destruct (align_exact _ _ _).
Qed.

Lemma process_row_keys car_names row d c :
  is_Some (d !! c) → is_Some ((process_row car_names row d).1 !! c).
Proof.
  intros H. destruct row as [|[[text|]|] value_cells]; try done.
  simpl. destruct (_ =? _).
  - by apply align_exact_keys.
  - pose proof (align_partial_zip (strip text) car_names 0 value_cells d) as Hz.
    destruct (align_partial _ _ _ _ _) as [d1 o1]. simpl in *. rewrite Hz.
    by apply align_exact_keys.
Qed.

Lemma process_rows_keys car_names param_rows d c :
  is_Some (d !! c) → is_Some ((process_rows car_names param_rows d).1 !! c).
Proof.
  revert d. induction param_rows as [|row rest IH]; intros d H; [done|].
  simpl. pose proof (process_row_keys car_names row d c H) as H1.
  destruct (process_row _ _ _) as [d1 o1]. specialize (IH d1 H1).
  by destruct (process_rows _ _ _).
Qed.

(** Once a column and a row are found, [extract_car_info] returns a
    dictionary whatever the rows hold: the test [if not all_car_data] sees
    the keys the column loop has put there. *)
Lemma extract_car_info_returns page :
  settle_ok page = true →
  car_styles_primary page ≠ [] ∨ car_styles_fallback page ≠ [] →
  param_rows_primary page ≠ [] ∨ param_rows_fallback page ≠ [] →
  is_Some (extract_car_info page).1.
Proof.
  intros Hs Hcols Hrows. unfold extract_car_info. rewrite Hs. cbn [negb].
  assert (∃ car_style rest o_styles,
            (if nonempty (car_styles_primary page) then (car_styles_primary page, [])
             else (car_styles_fallback page, [MTryAltStyles]))
            = (car_style :: rest, o_styles)) as (car_style & rest & o_styles & ->).
  { destruct (car_styles_primary page) as [|x xs]; simpl; [|eauto].
    destruct (car_styles_fallback page) as [|y ys]; [|eauto]. by destruct Hcols. }
  cbn [nonempty negb].
  assert (∃ c, is_Some ((collect_names 1 (car_style :: rest) ∅).1.2 !! c)) as [c Hc].
  { pose proof (collect_names_length 1 (car_style :: rest) ∅) as Hlen.
    destruct ((collect_names 1 (car_style :: rest) ∅).1.1) as [|c cs] eqn:Hn; [done|].
    exists c. apply collect_names_keys. left. rewrite Hn. by left. }
  destruct (collect_names 1 (car_style :: rest) ∅) as [[car_names d0] o_names].
  assert (∃ row rows o_rows,
            (if nonempty (param_rows_primary page) then (param_rows_primary page, [])
             else (param_rows_fallback page, [MTryAltRows]))
            = (row :: rows, o_rows)) as (row & rows & o_rows & ->).
  { destruct (param_rows_primary page) as [|x xs]; simpl; [|eauto].
    destruct (param_rows_fallback page) as [|y ys]; [|eauto]. by destruct Hrows. }
  cbn [nonempty negb fst snd] in *.
  pose proof (process_rows_keys car_names (row :: rows) d0 c Hc) as Hk.
  destruct (process_rows car_names (row :: rows) d0) as [d1 o_params].
  cbn [fst snd] in *.
  assert (dict_truthy d1 = true) as ->.
  { unfold dict_truthy. apply negb_true_iff, bool_decide_eq_false.
    intros ->. rewrite lookup_empty in Hk. by destruct Hk. }
  cbn [negb fst]. eauto.
Qed.

(** C5, on a page with one column and one row whose only value is '——': no
    pair is stored, yet the dictionary returned is [{'A': {}}], which is not
    empty; [run] saves it on its first attempt and does not retry. *)
Theorem blank_extraction_returned :
  (extract_car_info Sample.page_blank).1 = Some {[Sample.A := ∅]}
  ∧ (∀ car_name param_name,
       get_param {[Sample.A := ∅]} car_name param_name = None)
  ∧ let r := run Sample.spider1
               (Sample.world_of (λ _, NavPage Sample.page_blank) true) in
    r.1 = Returned (Some {[Sample.A := ∅]})
    ∧ count is_goto r.2 = 1
    ∧ count is_sleep r.2 = 0.
Proof.
  split; [reflexivity|]. split.
  - intros car_name param_name. unfold get_param.
    destruct (decide (Sample.A = car_name)) as [<-|Hne].
    + by rewrite lookup_singleton_eq.
    + by rewrite lookup_singleton_ne.
  - cbv zeta. split_and!; reflexivity.
Qed.

(** ** The retry loop *)

Lemma count_app p ev1 ev2 : count p (ev1 ++ ev2) = count p ev1 + count p ev2.
Proof. unfold count. by rewrite List.filter_app, length_app. Qed.

Lemma count_none p ev : Forall (λ e, p e = false) ev → count p ev = 0.
Proof.
  unfold count. induction 1 as [|e ev He _ IH]; [done|]. simpl. by rewrite He.
Qed.

Lemma retry_loop_all_raise self w remaining retry_count :
  (∀ n, goto w n = NavRaises) →
  (retry_loop self w remaining retry_count).1.1 = None
  ∧ (retry_loop self w remaining retry_count).1.2 = retry_count + remaining
  ∧ count is_goto (retry_loop self w remaining retry_count).2 = remaining.
Proof.
  intros Hnav. revert retry_count.
  induction remaining as [|remaining IH]; intros retry_count.
  { simpl. split_and!; [done|lia|done]. }
  simpl. rewrite Hnav.
  destruct (IH (S retry_count)) as (Hr & Hn & Hc).
  destruct (retry_loop self w remaining (S retry_count)) as [[r n] ev].
  simpl in *. split_and!; [done|lia|]. unfold count in *. simpl. by rewrite Hc.
Qed.

(** C6. When the session starts and every [page.goto] of a unit raises,
    [run] navigates exactly [max_retries] = 3 times and returns [None]. *)
Theorem retry_bound (self : CarSpider) (w : World) :
  start_ok w = true → launch_ok w = true → context_ok w = true →
  close_ok w = true →
  (∀ n, goto w n = NavRaises) →
  (run self w).1 = Returned None
  ∧ count is_goto (run self w).2 = max_retries
  ∧ max_retries = 3.
Proof.
  intros Hs Hl Hc Hx Hnav. unfold run, run_body. rewrite Hs, Hl, Hc, Hx.
  cbn [negb].
  destruct (retry_loop_all_raise self w max_retries 0 Hnav) as (Hr & Hn & Hg).
  destruct (retry_loop self w max_retries 0) as [[r n] ev].
  cbn [negb fst snd] in *. subst r. split_and!; [done| |done].
  rewrite !count_app, Hg. by destruct (max_retries <=? n).
Qed.

Lemma retry_bound_witness :
  (run Sample.spider1 (Sample.world_of (λ _, NavRaises) true)).1 = Returned None
  ∧ count is_goto (run Sample.spider1 (Sample.world_of (λ _, NavRaises) true)).2
    = max_retries
  ∧ max_retries = 3.
Proof.
  apply (retry_bound Sample.spider1 (Sample.world_of (λ _, NavRaises) true));
    reflexivity.
Defined.

Lemma plain_prints (o : list msg) : Forall (λ e, plain e = true) (map Print o).
Proof. induction o; by constructor. Qed.

(** One iteration either goes round again after plain events, or ends the
    loop with [save_data]. *)
Lemma retry_loop_step self w remaining retry_count :
  (∃ pre, Forall (λ e, plain e = true) pre
     ∧ retry_loop self w (S remaining) retry_count =
       ((retry_loop self w remaining (S retry_count)).1,
        pre ++ (retry_loop self w remaining (S retry_count)).2))
  ∨ (∃ pre data, Forall (λ e, plain e = true) pre
     ∧ retry_loop self w (S remaining) retry_count =
       ((save_data self w data).1, retry_count, pre ++ (save_data self w data).2)).
Proof.
  cbn [retry_loop].
  assert (∀ pre, (let '(r, n, ev') := retry_loop self w remaining (S retry_count) in
                  (r, n, pre ++ ev'))
                 = ((retry_loop self w remaining (S retry_count)).1,
                    pre ++ (retry_loop self w remaining (S retry_count)).2)) as Hagain.
  { intros pre. by destruct (retry_loop _ _ _ _) as [[r n] ev']. }
  pose proof plain_prints as Hp.
  destruct (goto w retry_count) as [|page].
  { left. eexists. split; [|apply Hagain]. by repeat constructor. }
  destruct (wait_for_page_load page) as [ready o_load]. destruct ready; cbn [negb].
  2:{ left. eexists. split; [|apply Hagain].
      repeat (constructor; [done|]). apply Forall_app. split; [done|]. by repeat constructor. }
  assert (Forall (λ e, plain e = true)
            ([Print (MVisiting (sp_url self)); Goto (sp_url self)] ++ map Print o_load))
    as Hpre1 by (repeat (constructor; [done|]); done).
  destruct (extract_car_info page) as [[data|] o_info].
  - destruct (dict_truthy data).
    + right. exists ([Print (MVisiting (sp_url self)); Goto (sp_url self)]
                     ++ map Print o_load ++ map Print o_info), data.
      split.
      * rewrite app_assoc. apply Forall_app. by split.
      * destruct (save_data self w data) as [result_data o_save].
        cbn [fst snd]. by rewrite <-!app_assoc.
    + left. eexists. split; [|apply Hagain].
      rewrite app_assoc. apply Forall_app. split; [done|].
      apply Forall_app. split; [done|]. by repeat constructor.
  - left. eexists. split; [|apply Hagain].
    rewrite app_assoc. apply Forall_app. split; [done|].
    apply Forall_app. split; [done|]. by repeat constructor.
Qed.

(** The loop itself never touches the browser's life cycle. *)
Lemma retry_loop_events self w remaining retry_count :
  Forall (λ e, plain e = true ∨ ∃ n c d, e = WriteFile n c d)
    (retry_loop self w remaining retry_count).2.
Proof.
  revert retry_count. induction remaining as [|remaining IH]; intros retry_count.
  { constructor. }
  destruct (retry_loop_step self w remaining retry_count)
    as [(pre & Hpre & ->)|(pre & data & Hpre & ->)]; cbn [snd].
  - apply Forall_app. split; [|apply IH].
    eapply Forall_impl; [exact Hpre|]. by left.
  - apply Forall_app. split.
    + eapply Forall_impl; [exact Hpre|]. by left.
    + unfold save_data. destruct (write_ok w); cbn [snd];
        (constructor; [right; eauto|]); constructor; [by left|constructor| by left|constructor].
Qed.

Lemma retry_loop_failed_write self w remaining retry_count :
  write_ok w = false →
  (retry_loop self w remaining retry_count).1.1 = None
  ∧ ∀ n c d, WriteFile n c d ∈ (retry_loop self w remaining retry_count).2 →
             Print MSaveError ∈ (retry_loop self w remaining retry_count).2.
Proof.
  intros Hw. revert retry_count.
  induction remaining as [|remaining IH]; intros retry_count.
  { split; [done|]. intros n c d H. by apply elem_of_nil in H. }
  destruct (retry_loop_step self w remaining retry_count)
    as [(pre & Hpre & ->)|(pre & data & Hpre & ->)]; cbn [fst snd].
  - destruct (IH (S retry_count)) as [Hr Hlog]. split; [done|].
    intros n c d Hin. apply elem_of_app in Hin as [Hin|Hin].
    + rewrite Forall_forall in Hpre. by apply Hpre in Hin.
    + apply elem_of_app. right. eauto.
  - unfold save_data. rewrite Hw. cbn [fst snd]. split; [done|].
    intros _ _ _ _. apply elem_of_app. right. right. by left.
Qed.

(** Membership of an event in a trace built from explicit pieces. *)
Ltac split_trace :=
  repeat match goal with
  | H : _ ∈ _ ++ _ |- _ => apply elem_of_app in H as [H|H]
  | H : _ ∈ _ :: _ |- _ => apply elem_of_cons in H as [H|H]
  | H : _ ∈ [] |- _ => by apply elem_of_nil in H
  | H : WriteFile _ _ _ = _ |- _ => discriminate H
  | H : _ ∈ (if ?b then _ else _) |- _ => destruct b
  end.

Ltac find_in_trace :=
  rewrite ?elem_of_app, ?elem_of_cons; tauto.

Lemma run_failed_write self w :
  write_ok w = false →
  ((run self w).1 = Returned None ∨ (run self w).1 = Raised)
  ∧ ∀ n c d, WriteFile n c d ∈ (run self w).2 → Print MSaveError ∈ (run self w).2.
Proof.
  intros Hw. unfold run, run_body.
  destruct (start_ok w); cbn [negb fst snd].
  2:{ split; [by right|]. intros n c d H. split_trace. }
  destruct (launch_ok w); cbn [negb fst snd].
  2:{ split; [by right|]. intros n c d H. split_trace. }
  destruct (context_ok w); cbn [negb fst snd].
  2:{ split; [destruct (close_ok w); cbn; eauto|].
      intros n c d H. destruct (close_ok w); cbn [negb fst snd] in H; split_trace. }
  destruct (retry_loop_failed_write self w max_retries 0 Hw) as [Hr Hlog].
  destruct (retry_loop self w max_retries 0) as [[r k] ev].
  cbn [negb fst snd] in *. subst r.
  split; [destruct (close_ok w); cbn; eauto|].
  intros n c d H.
  assert (WriteFile n c d ∈ ev) as Hin.
  { destruct (close_ok w); cbn [negb fst snd] in H; split_trace; done. }
  apply Hlog in Hin. destruct (close_ok w); cbn [negb fst snd]; find_in_trace.
Qed.

(** C7, as the code has it. When the unit's file cannot be written,
    [save_data] catches the failure and prints it, and gives [None]; the
    unit's result is then [None], nothing is added to the combined data for
    it, and the batch goes on with the units after it. *)
Theorem failed_write_skips_unit (car_info : CarInfo) (w : World)
    (rest : list (CarInfo * World)) (all_cars_data : AggregateDataset) :
  write_ok w = false →
  (process_car car_info w).1 = None
  ∧ (∀ n c d, WriteFile n c d ∈ (process_car car_info w).2 →
              Print MSaveError ∈ (process_car car_info w).2)
  ∧ process_units ((car_info, w) :: rest) all_cars_data =
      ((process_units rest all_cars_data).1,
       (process_car car_info w).2 ++ (process_units rest all_cars_data).2).
Proof.
  intros Hw.
  assert ((process_car car_info w).1 = None
          ∧ ∀ n c d, WriteFile n c d ∈ (process_car car_info w).2 →
                     Print MSaveError ∈ (process_car car_info w).2) as [Hnone Hlog].
  { unfold process_car. destruct (url car_info) as [url_|].
    2:{ split; [done|]. intros n c d H. cbn [snd] in H. split_trace. }
    destruct (truthy url_).
    2:{ split; [done|]. intros n c d H. cbn [snd] in H. split_trace. }
    set (spider := new_spider _ _ _).
    destruct (run_failed_write spider w Hw) as [Hres Hrun].
    destruct (run spider w) as [res ev]. cbn [fst snd] in *.
    destruct Hres as [-> | ->]; cbn [fst snd];
      (split; [done|]); intros n c d H;
      (assert (WriteFile n c d ∈ ev) as Hin by (split_trace; done));
      apply Hrun in Hin; find_in_trace. }
  split_and!; [done|done|].
  cbn [process_units]. destruct (process_car car_info w) as [car_data ev].
  cbn [fst snd] in *. subst car_data.
  by destruct (process_units rest all_cars_data).
Qed.

Lemma failed_write_skips_unit_witness :
  (process_car Sample.unit1 (Sample.world_of (λ _, NavPage Sample.page3) false)).1
  = None.
Proof.
  apply (failed_write_skips_unit Sample.unit1
           (Sample.world_of (λ _, NavPage Sample.page3) false) [] ∅).
  reflexivity.
Defined.

(** C7, as stated, fails: the page of the unit gives a result, its file
    cannot be written, and the combined data has no entry for the unit. *)
Lemma failed_write_not_aggregated :
  let w := Sample.world_of (λ _, NavPage Sample.page3) false in
  (extract_car_info Sample.page3).1 = Some Sample.data3
  ∧ write_ok w = false
  ∧ (process_all_cars [(Sample.unit1, w)]).1 = Some ∅
  ∧ ¬ (∃ models : gmap (list N) ExtractionResult,
         (process_all_cars [(Sample.unit1, w)]).1 ≫= (λ all, all !! Sample.A)
         = Some models
         ∧ models !! Sample.B = Some Sample.data3).
Proof.
  cbv zeta. split_and!; try reflexivity.
  intros (models & H & _). vm_compute in H. discriminate H.
Qed.

(** ** Back-off *)

(** C8, on a unit whose first page shows no container and whose later
    navigations raise: the second [goto] follows the first failure with no
    sleep in between, while each of the two later failures is followed by a
    sleep. *)
Theorem unready_retry_without_sleep :
  let w := Sample.world_of
             (λ n, match n with 0 => NavPage Sample.page_unready | _ => NavRaises end)
             true in
  run Sample.spider1 w =
    (Returned None,
     [PlaywrightStart; BrowserLaunch; NewContext;
      Print (MVisiting Sample.url1); Goto Sample.url1;
      Print MNoContainer; Print (MLoadRetry 1);
      Print (MVisiting Sample.url1); Goto Sample.url1;
      Print MRunError; Sleep;
      Print (MVisiting Sample.url1); Goto Sample.url1;
      Print MRunError; Sleep;
      Print (MMaxRetries Sample.B);
      BrowserClose; PlaywrightStop]).
Proof. reflexivity. Qed.

(** ** The browser *)

Lemma plain_not_launch e : plain e = true → is_launch e = false.
Proof. by destruct e. Qed.
Lemma plain_not_close e : plain e = true → is_close e = false.
Proof. by destruct e. Qed.

Lemma retry_loop_no_browser self w remaining retry_count :
  count is_launch (retry_loop self w remaining retry_count).2 = 0
  ∧ count is_close (retry_loop self w remaining retry_count).2 = 0.
Proof.
  pose proof (retry_loop_events self w remaining retry_count) as H.
  split; apply count_none; (eapply Forall_impl; [exact H|]);
    intros e [He|(n & c & d & ->)]; try done; by destruct e.
Qed.

(** C9, as the code has it. The browser belongs to one unit's [run]: when
    the session starts and the browser is launched, [run] launches it once,
    closes it once, and the close comes after everything else the run does
    but the stop of the session, however the run ends. *)
Theorem run_browser_once (self : CarSpider) (w : World) :
  start_ok w = true → launch_ok w = true →
  count is_launch (run self w).2 = 1
  ∧ count is_close (run self w).2 = 1
  ∧ ∃ ev, count is_close ev = 0
          ∧ (run self w).2 = ev ++ BrowserClose :: (if close_ok w then [PlaywrightStop] else []).
Proof.
  intros Hs Hl. unfold run, run_body. rewrite Hs, Hl. cbn [negb].
  destruct (context_ok w); cbn [negb fst snd].
  2:{ destruct (close_ok w); cbn [negb fst snd]; (split_and!; [done|done|]);
        by exists [PlaywrightStart; BrowserLaunch; NewContext; Print MRunFailed]. }
  destruct (retry_loop_no_browser self w max_retries 0) as [Hla Hcl].
  destruct (retry_loop self w max_retries 0) as [[r k] ev].
  cbn [negb fst snd] in *.
  assert (count is_close ([PlaywrightStart; BrowserLaunch; NewContext] ++ ev ++
            (if max_retries <=? k then [Print (MMaxRetries (sp_car_name self))] else []))
          = 0) as Hpre.
  { rewrite !count_app, Hcl. by destruct (max_retries <=? k). }
  destruct (close_ok w); cbn [negb fst snd].
  - split_and!.
    + rewrite !count_app, Hla. by destruct (max_retries <=? k).
    + rewrite count_app, Hpre. done.
    + eexists. split; [exact Hpre|done].
  - split_and!.
    + rewrite !count_app, Hla. by destruct (max_retries <=? k).
    + rewrite count_app, Hpre. done.
    + eexists. split; [exact Hpre|done].
Qed.

Lemma run_browser_once_witness :
  count is_launch (run Sample.spider1 (Sample.world_of (λ _, NavRaises) true)).2 = 1.
Proof.
  apply (run_browser_once Sample.spider1 (Sample.world_of (λ _, NavRaises) true));
    reflexivity.
Defined.

(** C9, as stated, fails: a batch of two units launches a browser twice and
    closes one twice, the first close coming before the second launch. *)
Lemma batch_launches_per_unit :
  let w := Sample.world_of (λ _, NavPage Sample.page3) true in
  let tr := (process_all_cars [(Sample.unit1, w); (Sample.unit2, w)]).2 in
  count is_launch tr = 2
  ∧ count is_close tr = 2
  ∧ List.filter (λ e, is_launch e || is_close e) tr
    = [BrowserLaunch; BrowserClose; BrowserLaunch; BrowserClose].
Proof. cbv zeta. split_and!; reflexivity. Qed.

(** ** Units without a URL *)

(** C10. For a record without a [url], [process_car] prints the error and
    returns [None], with no spider created and no browser call made; the
    loop over the list goes on with the following units from the same
    combined data, so the unit adds nothing to it. *)
Theorem missing_url_skipped (car_info : CarInfo) (w : World)
    (rest : list (CarInfo * World)) (all_cars_data : AggregateDataset) :
  url car_info = None →
  process_car car_info w =
    (None, [Print (MMissingUrl (get_or unknown_model (subname car_info)))])
  ∧ process_units ((car_info, w) :: rest) all_cars_data =
      ((process_units rest all_cars_data).1,
       Print (MMissingUrl (get_or unknown_model (subname car_info)))
         :: (process_units rest all_cars_data).2).
Proof.
  intros Hurl.
  assert (process_car car_info w =
            (None, [Print (MMissingUrl (get_or unknown_model (subname car_info)))]))
    as Hcar by (unfold process_car; by rewrite Hurl).
  split; [done|]. cbn [process_units]. rewrite Hcar.
  by destruct (process_units rest all_cars_data).
Qed.

Lemma missing_url_skipped_witness :
  process_car Sample.unit_no_url (Sample.world_of (λ _, NavPage Sample.page3) true)
  = (None, [Print (MMissingUrl Sample.B)]).
Proof.
  apply (missing_url_skipped Sample.unit_no_url
           (Sample.world_of (λ _, NavPage Sample.page3) true) [] ∅).
  reflexivity.
Defined.

(** * Further properties of the code *)

(** ** Readiness *)

Lemma first_visible_spec page sels s :
  first_visible page sels = Some s ↔
  ∃ pre post, sels = pre ++ s :: post
              ∧ Forall (λ x, visible page x = false) pre
              ∧ visible page s = true.
Proof.
  induction sels as [|x sels IH]; simpl.
  { split; [done|]. intros (pre & post & H & _). by destruct pre. }
  destruct (visible page x) eqn:Hx.
  - split.
    + intros [= ->]. exists [], sels. by repeat split.
    + intros (pre & post & Heq & Hpre & Hs). destruct pre as [|y pre].
      * by injection Heq as ->.
      * injection Heq as -> _. apply Forall_cons in Hpre as [Hy _]. congruence.
  - rewrite IH. split.
    + intros (pre & post & -> & Hpre & Hs). exists (x :: pre), post.
      split_and!; [done| by constructor | done].
    + intros (pre & post & Heq & Hpre & Hs). destruct pre as [|y pre].
      * injection Heq as -> _. congruence.
      * injection Heq as -> ->. apply Forall_cons in Hpre as [_ Hpre]. eauto.
Qed.

Lemma first_visible_none page sels :
  first_visible page sels = None ↔ Forall (λ x, visible page x = false) sels.
Proof.
  induction sels as [|x sels IH]; simpl; [by split; [constructor|]|].
  destruct (visible page x) eqn:Hx.
  - split; [done|]. intros H. apply Forall_cons in H as [H _]. congruence.
  - rewrite IH. split; [by constructor|]. by intros [_ ?]%Forall_cons.
Qed.

(** [wait_for_page_load] answers [True] with the container of selector [s]
    exactly when the load-state waits pass, [s] is visible and no selector
    before [s] in the priority list is; it answers [False] exactly when the
    waits fail or none of the five selectors is visible. *)
Theorem wait_for_page_load_spec (page : Page) :
  (∀ s, wait_for_page_load page = (true, [MFoundContainer s]) ↔
        load_ok page = true
        ∧ ∃ pre post, selectors = pre ++ s :: post
                      ∧ Forall (λ x, visible page x = false) pre
                      ∧ visible page s = true)
  ∧ ((wait_for_page_load page).1 = false ↔
     load_ok page = false ∨ Forall (λ x, visible page x = false) selectors).
Proof.
  unfold wait_for_page_load. split.
  - intros s. rewrite <-first_visible_spec.
    destruct (load_ok page); cbn [negb].
    + destruct (first_visible page selectors) as [s'|].
      * split; [by intros [= ->] | by intros [_ [= ->]]].
      * split; [done | by intros [_ ?]].
    + split; [done | by intros [? _]].
  - rewrite <-first_visible_none.
    destruct (load_ok page); cbn [negb].
    + destruct (first_visible page selectors) as [s'|]; cbn [fst].
      * split; [done | by intros [?|?]].
      * split; [by right | done].
    + split; [by left | done].
Qed.

(** ** When the extraction gives a result, and what its keys are *)

Lemma found_car_styles_eq page :
  (if nonempty (car_styles_primary page) then (car_styles_primary page, [])
   else (car_styles_fallback page, [MTryAltStyles]))
  = (found_car_styles page,
     if nonempty (car_styles_primary page) then [] else [MTryAltStyles]).
Proof. unfold found_car_styles. by destruct (nonempty _). Qed.

Lemma found_param_rows_eq page :
  (if nonempty (param_rows_primary page) then (param_rows_primary page, [])
   else (param_rows_fallback page, [MTryAltRows]))
  = (found_param_rows page,
     if nonempty (param_rows_primary page) then [] else [MTryAltRows]).
Proof. unfold found_param_rows. by destruct (nonempty _). Qed.

(** The dictionary [extract_car_info] returns is the one the rows leave. *)
Lemma extract_car_info_Some page d :
  (extract_car_info page).1 = Some d ↔
  settle_ok page = true
  ∧ found_car_styles page ≠ []
  ∧ found_param_rows page ≠ []
  ∧ d = (process_rows (car_names_of (found_car_styles page)) (found_param_rows page)
           (collect_names 1 (found_car_styles page) ∅).1.2).1.
Proof.
  unfold extract_car_info, car_names_of.
  rewrite found_car_styles_eq, found_param_rows_eq.
  destruct (settle_ok page); cbn [negb fst]; [|naive_solver].
  destruct (found_car_styles page) as [|car_style rest] eqn:Hcs;
    cbn [nonempty negb fst]; [naive_solver|].
  assert (∃ c, is_Some ((collect_names 1 (car_style :: rest) ∅).1.2 !! c)) as [c Hc].
  { pose proof (collect_names_length 1 (car_style :: rest) ∅) as Hlen.
    destruct ((collect_names 1 (car_style :: rest) ∅).1.1) as [|c cs] eqn:Hn; [done|].
    exists c. apply collect_names_keys. left. rewrite Hn. by left. }
  destruct (collect_names 1 (car_style :: rest) ∅) as [[car_names d0] o_names].
  destruct (found_param_rows page) as [|row rows] eqn:Hrows;
    cbn [nonempty negb fst snd] in *; [naive_solver|].
  pose proof (process_rows_keys car_names (row :: rows) d0 c Hc) as Hk.
  destruct (process_rows car_names (row :: rows) d0) as [d1 o_params].
  cbn [fst snd] in *.
  assert (dict_truthy d1 = true) as ->.
  { unfold dict_truthy. apply negb_true_iff, bool_decide_eq_false.
    intros ->. rewrite lookup_empty in Hk. by destruct Hk. }
  cbn [negb fst]. naive_solver.
Qed.

(** [extract_car_info] returns a dictionary exactly when its load-state
    waits pass, one of the two header selectors finds an element and one of
    the two row selectors finds a row; what the rows contain plays no part. *)
Theorem extract_car_info_result_iff (page : Page) :
  is_Some (extract_car_info page).1 ↔
  settle_ok page = true
  ∧ (car_styles_primary page ≠ [] ∨ car_styles_fallback page ≠ [])
  ∧ (param_rows_primary page ≠ [] ∨ param_rows_fallback page ≠ []).
Proof.
  assert (found_car_styles page ≠ [] ↔
          car_styles_primary page ≠ [] ∨ car_styles_fallback page ≠ []) as <-.
  { unfold found_car_styles. destruct (car_styles_primary page); simpl; naive_solver. }
  assert (found_param_rows page ≠ [] ↔
          param_rows_primary page ≠ [] ∨ param_rows_fallback page ≠ []) as <-.
  { unfold found_param_rows. destruct (param_rows_primary page); simpl; naive_solver. }
  split.
  - intros [d Hd]. apply extract_car_info_Some in Hd. naive_solver.
  - intros (Hs & Hc & Hr). eexists. apply extract_car_info_Some. eauto.
Qed.

Lemma set_param_dom d c l v d' :
  set_param d c l v = Some d' → dom d' = dom d.
Proof.
  unfold set_param. destruct (d !! c) as [ps|] eqn:Hc; [|done]. intros [= <-].
  rewrite dom_insert_L. apply (elem_of_dom_2 (D:=gset (list N))) in Hc. set_solver.
Qed.

Lemma store_exact_dom l c cell d : dom (store_exact l c cell d).1 = dom d.
Proof.
  unfold store_exact. destruct cell as [text|]; [|done].
  destruct (valid_param _ _); [|done].
  destruct (set_param _ _ _ _) eqn:Hs; [|done]. eauto using set_param_dom.
Qed.

Lemma align_exact_dom l pairs d : dom (align_exact l pairs d).1 = dom d.
Proof.
  revert d. induction pairs as [|[c cell] rest IH]; intros d; [done|].
  simpl. pose proof (store_exact_dom l c cell d) as H1.
  destruct (store_exact _ _ _ _) as [d1 o1]. specialize (IH d1).
  destruct (align_exact _ _ _). simpl in *. congruence.
Qed.

(** The data a row leaves, whichever branch it takes. *)
Lemma process_row_data car_names text value_cells d :
  (process_row car_names (RowCells (Some (Some text)) value_cells) d).1
  = (align_exact (strip text) (zip car_names value_cells) d).1.
Proof.
  simpl. destruct (_ =? _); [done|].
  pose proof (align_partial_zip (strip text) car_names 0 value_cells d) as Hz.
  rewrite drop_0 in Hz. by destruct (align_partial _ _ _ _ _).
Qed.

Lemma process_row_dom car_names row d : dom (process_row car_names row d).1 = dom d.
Proof.
  destruct row as [|[[text|]|] value_cells]; try done.
  rewrite process_row_data. apply align_exact_dom.
Qed.

Lemma process_rows_dom car_names param_rows d :
  dom (process_rows car_names param_rows d).1 = dom d.
Proof.
  revert d. induction param_rows as [|row rest IH]; intros d; [done|].
  simpl. pose proof (process_row_dom car_names row d) as H1.
  destruct (process_row _ _ _) as [d1 o1]. specialize (IH d1).
  destruct (process_rows _ _ _). simpl in *. congruence.
Qed.

Lemma collect_names_dom idx car_styles d :
  dom (collect_names idx car_styles d).1.2
  = list_to_set (collect_names idx car_styles d).1.1 ∪ dom d.
Proof.
  revert idx d. induction car_styles as [|car_style rest IH]; intros idx d.
  { simpl. set_solver. }
  simpl. destruct (match car_style with Some _ => _ | None => _ end) as [car_name out].
  specialize (IH (S idx) (<[car_name := ∅]> d)).
  destruct (collect_names _ _ _) as [[car_names d'] out']. simpl in *.
  rewrite IH, dom_insert_L. set_solver.
Qed.

Lemma size_list_to_set_le (l : list (list N)) :
  size (list_to_set l : gset (list N)) ≤ length l.
Proof.
  induction l as [|x l IH]; [vm_compute; lia|].
  rewrite list_to_set_cons, size_union_alt, size_singleton. simpl.
  pose proof (subseteq_size (list_to_set l ∖ {[x]}) (list_to_set l : gset (list N))) as H.
  specialize (H ltac:(set_solver)). lia.
Qed.

Lemma extract_car_info_dom page d :
  (extract_car_info page).1 = Some d →
  dom d = list_to_set (car_names_of (found_car_styles page)).
Proof.
  intros (_ & _ & _ & ->)%extract_car_info_Some.
  rewrite process_rows_dom, collect_names_dom, dom_empty_L. unfold car_names_of.
  set_solver.
Qed.

(** The keys of the dictionary [extract_car_info] returns are exactly the
    column names, whatever the rows hold; so it has at most as many entries
    as header elements were found, and fewer when two names coincide. *)
Theorem extraction_keys (page : Page) (d : ExtractionResult) :
  (extract_car_info page).1 = Some d →
  dom d = list_to_set (car_names_of (found_car_styles page))
  ∧ size d ≤ length (found_car_styles page).
Proof.
  intros Hd. pose proof (extract_car_info_dom page d Hd) as Hdom.
  split; [done|].
  rewrite <-(size_dom (D:=gset (list N))), Hdom.
  etrans; [apply size_list_to_set_le|].
  unfold car_names_of. by rewrite collect_names_length.
Qed.

Lemma extraction_keys_witness :
  dom Sample.data3 = list_to_set (car_names_of (found_car_styles Sample.page3))
  ∧ size Sample.data3 ≤ length (found_car_styles Sample.page3).
Proof. apply (extraction_keys Sample.page3 Sample.data3). reflexivity. Defined.

(** ** Where a stored value comes from *)

Section Provenance.

(** [ok c l v]: the pair may be stored for column [c]. *)
Variable ok : pystr → pystr → pystr → Prop.

Let inv (d : ExtractionResult) : Prop :=
  ∀ c l v, get_param d c l = Some v → ok c l v.

Lemma set_param_inv d c l v d' :
  ok c l v → inv d → set_param d c l v = Some d' → inv d'.
Proof.
  intros Hok Hd. unfold set_param. destruct (d !! c) as [ps|] eqn:Hc; [|done].
  intros [= <-] c' l' v'. unfold get_param.
  destruct (decide (c = c')) as [<-|Hne].
  - rewrite lookup_insert_eq. simpl.
    destruct (decide (l = l')) as [<-|Hnl].
    + rewrite lookup_insert_eq. by intros [= <-].
    + rewrite lookup_insert_ne by done. intros H. apply (Hd c l' v').
      unfold get_param. by rewrite Hc.
  - rewrite lookup_insert_ne by done. apply Hd.
Qed.

Lemma store_exact_inv l c cell d :
  (∀ text, cell = Some text → ok c l (strip text)) →
  inv d → inv (store_exact l c cell d).1.
Proof.
  intros Hok Hd. unfold store_exact. destruct cell as [text|]; [|done].
  destruct (valid_param _ _); [|done].
  destruct (set_param _ _ _ _) eqn:Hs; [|done].
  eapply set_param_inv; eauto.
Qed.

Lemma align_exact_inv l pairs d :
  (∀ c text, (c, Some text) ∈ pairs → ok c l (strip text)) →
  inv d → inv (align_exact l pairs d).1.
Proof.
  revert d. induction pairs as [|[c cell] rest IH]; intros d Hok Hd; [done|].
  simpl.
  assert (inv (store_exact l c cell d).1) as H1.
  { apply store_exact_inv; [|done]. intros text ->. apply Hok. by left. }
  destruct (store_exact _ _ _ _) as [d1 o1].
  assert (inv (align_exact l rest d1).1) as H2.
  { apply IH; [|done]. intros c' text Hin. apply Hok. by right. }
  by destruct (align_exact _ _ _).
Qed.

End Provenance.

Lemma collect_names_empty idx car_styles d :
  (∀ c ps, d !! c = Some ps → ps = ∅) →
  ∀ c ps, (collect_names idx car_styles d).1.2 !! c = Some ps → ps = ∅.
Proof.
  revert idx d. induction car_styles as [|car_style rest IH]; intros idx d Hd; [done|].
  simpl. destruct (match car_style with Some _ => _ | None => _ end) as [car_name out].
  specialize (IH (S idx) (<[car_name := ∅]> d)).
  destruct (collect_names _ _ _) as [[car_names d'] out']. simpl in *.
  apply IH. intros c ps. destruct (decide (car_name = c)) as [->|Hne].
  - rewrite lookup_insert_eq. by intros [= <-].
  - rewrite lookup_insert_ne by done. apply Hd.
Qed.

(** A pair of the dictionary comes from a cell of the page when some row has
    the name as its stripped name text and the value as the stripped text of
    its i-th value cell, where i is a position of the column's name. *)
Lemma process_rows_from_cells (car_names : list pystr) (param_rows all_rows : list Row)
    (d : ExtractionResult) :
  let from_cell c l v :=
    ∃ text value_cells i t,
      RowCells (Some (Some text)) value_cells ∈ all_rows
      ∧ strip text = l
      ∧ car_names !! i = Some c
      ∧ value_cells !! i = Some (Some t)
      ∧ strip t = v in
  (∀ row, row ∈ param_rows → row ∈ all_rows) →
  (∀ c l v, get_param d c l = Some v → from_cell c l v) →
  ∀ c l v, get_param (process_rows car_names param_rows d).1 c l = Some v →
           from_cell c l v.
Proof.
  intros from_cell. revert d.
  induction param_rows as [|row rest IH]; intros d Hsub Hd; [done|].
  simpl.
  assert (∀ c l v, get_param (process_row car_names row d).1 c l = Some v →
                   from_cell c l v) as H1.
  { destruct row as [|[[text|]|] value_cells]; try done.
    rewrite process_row_data. apply align_exact_inv; [|done].
    intros c t Hin. apply elem_of_lookup_zip_with_1 in Hin as (i & x & y & [= <- <-] & Hx & Hy).
    exists text, value_cells, i, t. split_and!; try done. apply Hsub. by left. }
  destruct (process_row _ _ _) as [d1 o1].
  assert (∀ row', row' ∈ rest → row' ∈ all_rows) as Hsub' by (intros; apply Hsub; by right).
  specialize (IH d1 Hsub' H1). by destruct (process_rows _ _ _).
Qed.

Lemma extract_car_info_cells page d car_name param_name param_value :
  (extract_car_info page).1 = Some d →
  get_param d car_name param_name = Some param_value →
  ∃ text value_cells i t,
    RowCells (Some (Some text)) value_cells ∈ found_param_rows page
    ∧ strip text = param_name
    ∧ car_names_of (found_car_styles page) !! i = Some car_name
    ∧ value_cells !! i = Some (Some t)
    ∧ strip t = param_value.
Proof.
  intros (_ & _ & _ & ->)%extract_car_info_Some.
  apply process_rows_from_cells; [done|].
  intros c l v. unfold get_param.
  destruct (_ !! c) as [ps|] eqn:Hc; [|done]. simpl.
  apply collect_names_empty in Hc as ->; [by rewrite lookup_empty|].
  intros c' ps'. by rewrite lookup_empty.
Qed.

(** Every pair in the dictionary [extract_car_info] returns was read off the
    page: some row found has the pair's name as its stripped name text, and
    the pair's value is the stripped text of the value cell of that row at a
    position where the column list has the pair's column. *)
Theorem extraction_from_cells (page : Page) (d : ExtractionResult)
    (car_name param_name param_value : pystr) :
  (extract_car_info page).1 = Some d →
  get_param d car_name param_name = Some param_value →
  ∃ text value_cells i t,
    RowCells (Some (Some text)) value_cells ∈ found_param_rows page
    ∧ strip text = param_name
    ∧ car_names_of (found_car_styles page) !! i = Some car_name
    ∧ value_cells !! i = Some (Some t)
    ∧ strip t = param_value.
Proof. apply extract_car_info_cells. Qed.

Lemma extraction_from_cells_witness :
  ∃ text value_cells i t,
    RowCells (Some (Some text)) value_cells ∈ found_param_rows Sample.page3
    ∧ strip text = Sample.length_mm
    ∧ car_names_of (found_car_styles Sample.page3) !! i = Some Sample.B
    ∧ value_cells !! i = Some (Some t)
    ∧ strip t = Sample.v4500.
Proof.
  apply (extraction_from_cells Sample.page3 Sample.data3); reflexivity.
Defined.


(** ** Rows without a usable name *)

Lemma align_exact_nameless pairs d : (align_exact [] pairs d).1 = d.
Proof.
  revert d. induction pairs as [|[c cell] rest IH]; intros d; [done|].
  simpl. assert ((store_exact [] c cell d).1 = d) as H1 by by destruct cell.
  destruct (store_exact _ _ _ _) as [d1 o1]. simpl in H1. subst d1.
  specialize (IH d). by destruct (align_exact _ _ _).
Qed.

(** A row stores nothing, in any column and in either alignment branch,
    when its queries raise, when it has no name cell, when the text of the
    name cell cannot be read, or when that text is blank. *)
Theorem nameless_row_ignored (car_names : list pystr) (row : Row)
    (d : ExtractionResult) :
  match row with
  | RowCells (Some (Some text)) _ => strip text = []
  | _ => True
  end →
  (process_row car_names row d).1 = d.
Proof.
  destruct row as [|[[text|]|] value_cells]; try done.
  intros Hname. rewrite process_row_data, Hname. apply align_exact_nameless.
Qed.

Lemma nameless_row_ignored_witness :
  (process_row [Sample.A; Sample.B]
     (RowCells (Some (Some [32; 9]%N)) [Some Sample.v4500]) {[Sample.A := ∅]}).1
  = {[Sample.A := ∅]}.
Proof.
  apply (nameless_row_ignored [Sample.A; Sample.B]
           (RowCells (Some (Some [32; 9]%N)) [Some Sample.v4500])).
  reflexivity.
Defined.

(** ** Surrounding white space *)

Lemma lstrip_idem s : lstrip (lstrip s) = lstrip s.
Proof.
  induction s as [|c s IH]; [done|]. simpl.
  destruct (isspace c) eqn:Hc; [done|]. simpl. by rewrite Hc.
Qed.

Lemma lstrip_head s : lstrip s = [] ∨ ∃ c t, lstrip s = c :: t ∧ isspace c = false.
Proof.
  induction s as [|c s IH]; [by left|]. simpl.
  destruct (isspace c) eqn:Hc; [done|]. right. eauto.
Qed.

Lemma lstrip_snoc s c : isspace c = false → lstrip (s ++ [c]) = lstrip s ++ [c].
Proof.
  intros Hc. induction s as [|x s IH]; simpl; [by rewrite Hc|].
  by destruct (isspace x).
Qed.

Lemma strip_idem s : strip (strip s) = strip s.
Proof.
  unfold strip.
  assert (lstrip (rstrip (lstrip s)) = rstrip (lstrip s)) as ->.
  { destruct (lstrip_head s) as [->|(c & t & -> & Hc)]; [done|].
    unfold rstrip. rewrite reverse_cons, lstrip_snoc, reverse_snoc by done.
    simpl. by rewrite Hc. }
  unfold rstrip. by rewrite reverse_involutive, lstrip_idem.
Qed.

Lemma strip_no_space s : Forall (λ c, isspace c = false) s → strip s = s.
Proof.
  intros Hs.
  assert (∀ t, Forall (λ c, isspace c = false) t → lstrip t = t) as Hl.
  { intros t Ht. destruct Ht as [|c t Hc _]; [done|]. simpl. by rewrite Hc. }
  unfold strip, rstrip. rewrite (Hl s Hs), Hl, reverse_involutive; [done|].
  by apply Forall_reverse.
Qed.

Lemma default_car_name_stripped idx : strip (default_car_name idx) = default_car_name idx.
Proof.
  apply strip_no_space. unfold default_car_name, str_of_nat.
  repeat (constructor; [done|]). simpl.
  induction (Nat.to_uint idx); simpl; by constructor.
Qed.

(** The keys, the parameter names and the values of the dictionary
    [extract_car_info] returns carry no leading or trailing white space:
    stripping any of them again changes nothing. *)
Theorem extraction_stripped (page : Page) (d : ExtractionResult) :
  (extract_car_info page).1 = Some d →
  (∀ car_name, is_Some (d !! car_name) → strip car_name = car_name)
  ∧ (∀ car_name param_name param_value,
       get_param d car_name param_name = Some param_value →
       strip param_name = param_name ∧ strip param_value = param_value).
Proof.
  intros Hd. split.
  - intros c Hc. apply (elem_of_dom (D:=gset (list N))) in Hc.
    rewrite (extract_car_info_dom page d Hd) in Hc.
    apply elem_of_list_to_set, list_elem_of_lookup in Hc as [i Hi].
    unfold car_names_of in Hi. rewrite collect_names_lookup in Hi.
    destruct (found_car_styles page !! i) as [[text|]|]; simpl in Hi; [| |done];
      injection Hi as <-; [|apply default_car_name_stripped].
    destruct (truthy (strip text)); [apply strip_idem | apply default_car_name_stripped].
  - intros c l v Hg.
    destruct (extract_car_info_cells page d c l v Hd Hg)
      as (text & cells & i & t & _ & <- & _ & _ & <-).
    split; apply strip_idem.
Qed.

Lemma extraction_stripped_witness :
  (∀ car_name, is_Some (Sample.data3 !! car_name) → strip car_name = car_name)
  ∧ (∀ car_name param_name param_value,
       get_param Sample.data3 car_name param_name = Some param_value →
       strip param_name = param_name ∧ strip param_value = param_value).
Proof. apply (extraction_stripped Sample.page3 Sample.data3). reflexivity. Defined.

(** ** The attempts of a run *)

Lemma count_prints p (o : list msg) :
  (∀ m, p (Print m) = false) → count p (map Print o) = 0.
Proof.
  intros Hp. apply count_none. induction o; constructor; [apply Hp | done].
Qed.

Ltac count_trace :=
  rewrite ?count_app, ?count_prints by done; vm_compute; lia.

(** One iteration of the loop in terms of [attempt]: after events that hold
    one [goto], at most one sleep and no file write, the loop ends with
    [save_data] when the attempt gives a dictionary and goes round again
    when it gives none. *)
Lemma retry_loop_attempt self w remaining retry_count :
  ∃ pre,
    count is_goto pre = 1 ∧ count is_sleep pre ≤ 1 ∧ count is_write pre = 0
    ∧ count is_launch pre = 0 ∧ count is_close pre = 0
    ∧ retry_loop self w (S remaining) retry_count =
      match attempt w retry_count with
      | Some data =>
          ((save_data self w data).1, retry_count, pre ++ (save_data self w data).2)
      | None =>
          ((retry_loop self w remaining (S retry_count)).1,
           pre ++ (retry_loop self w remaining (S retry_count)).2)
      end.
Proof.
  cbn [retry_loop]. unfold attempt.
  assert (∀ pre, (let '(r, n, ev') := retry_loop self w remaining (S retry_count) in
                  (r, n, pre ++ ev'))
                 = ((retry_loop self w remaining (S retry_count)).1,
                    pre ++ (retry_loop self w remaining (S retry_count)).2)) as Hagain.
  { intros pre. by destruct (retry_loop _ _ _ _) as [[r n] ev']. }
  destruct (goto w retry_count) as [|page].
  { exists ([Print (MVisiting (sp_url self)); Goto (sp_url self)]
            ++ [Print MRunError; Sleep]).
    split_and!; [count_trace..|apply Hagain]. }
  destruct (wait_for_page_load page) as [ready o_load]. destruct ready; cbn [negb fst].
  2:{ exists ([Print (MVisiting (sp_url self)); Goto (sp_url self)]
              ++ map Print o_load ++ [Print (MLoadRetry (retry_count + 1))]).
      split_and!; [count_trace..|apply Hagain]. }
  destruct (extract_car_info page) as [[data|] o_info]; cbn [fst].
  - destruct (dict_truthy data).
    + exists ([Print (MVisiting (sp_url self)); Goto (sp_url self)]
              ++ map Print o_load ++ map Print o_info).
      split_and!; [count_trace..|].
      destruct (save_data self w data) as [result_data o_save].
      cbn [fst snd]. by rewrite <-!app_assoc.
    + exists ([Print (MVisiting (sp_url self)); Goto (sp_url self)]
              ++ map Print o_load ++ map Print o_info
              ++ [Print (MExtractRetry (retry_count + 1)); Sleep]).
      split_and!; [count_trace..|apply Hagain].
  - exists ([Print (MVisiting (sp_url self)); Goto (sp_url self)]
            ++ map Print o_load ++ map Print o_info
            ++ [Print (MExtractRetry (retry_count + 1)); Sleep]).
    split_and!; [count_trace..|apply Hagain].
Qed.

Lemma save_data_events self w data :
  count is_goto (save_data self w data).2 = 0
  ∧ count is_sleep (save_data self w data).2 = 0
  ∧ count is_write (save_data self w data).2 = 1
  ∧ (save_data self w data).1 = (if write_ok w then Some data else None)
  ∧ WriteFile (sp_name self) (sp_car_name self) data ∈ (save_data self w data).2.
Proof. unfold save_data. destruct (write_ok w); split_and!; try done; by left. Qed.

Lemma retry_loop_bounds self w remaining retry_count :
  count is_goto (retry_loop self w remaining retry_count).2 ≤ remaining
  ∧ count is_sleep (retry_loop self w remaining retry_count).2
    ≤ count is_goto (retry_loop self w remaining retry_count).2
  ∧ count is_write (retry_loop self w remaining retry_count).2 ≤ 1.
Proof.
  revert retry_count. induction remaining as [|remaining IH]; intros retry_count.
  { vm_compute. lia. }
  destruct (retry_loop_attempt self w remaining retry_count)
    as (pre & Hg & Hs & Hw & _ & _ & ->).
  destruct (attempt w retry_count) as [data|]; cbn [fst snd]; rewrite !count_app.
  - destruct (save_data_events self w data) as (-> & -> & -> & _). lia.
  - destruct (IH (S retry_count)) as (? & ? & ?). lia.
Qed.

(** The loop ends at the first attempt that gives a dictionary. *)
Lemma retry_loop_first self w remaining retry_count k data :
  retry_count ≤ k → k < retry_count + remaining →
  (∀ j, retry_count ≤ j → j < k → attempt w j = None) →
  attempt w k = Some data →
  (retry_loop self w remaining retry_count).1
  = (if write_ok w then Some data else None, k)
  ∧ count is_goto (retry_loop self w remaining retry_count).2 = S (k - retry_count)
  ∧ count is_write (retry_loop self w remaining retry_count).2 = 1.
Proof.
  revert retry_count. induction remaining as [|remaining IH]; intros retry_count Hle Hlt Hfail Hk.
  { lia. }
  destruct (retry_loop_attempt self w remaining retry_count)
    as (pre & Hg & Hs & Hw & _ & _ & ->).
  destruct (decide (retry_count = k)) as [->|Hne].
  - rewrite Hk. cbn [fst snd]. rewrite !count_app.
    destruct (save_data_events self w data) as (-> & _ & -> & -> & _).
    split_and!; [done|lia|lia].
  - rewrite (Hfail retry_count) by lia. cbn [fst snd]. rewrite !count_app.
    destruct (IH (S retry_count)) as (-> & -> & ->); [lia|lia| |done|].
    + intros j ? ?. apply Hfail; lia.
    + split_and!; [done|lia|lia].
Qed.

Lemma retry_loop_exhaust self w remaining retry_count :
  (∀ j, retry_count ≤ j → j < retry_count + remaining → attempt w j = None) →
  (retry_loop self w remaining retry_count).1 = (None, retry_count + remaining)
  ∧ count is_goto (retry_loop self w remaining retry_count).2 = remaining
  ∧ count is_write (retry_loop self w remaining retry_count).2 = 0.
Proof.
  revert retry_count. induction remaining as [|remaining IH]; intros retry_count Hfail.
  { simpl. split_and!; [f_equal; lia|done|done]. }
  destruct (retry_loop_attempt self w remaining retry_count)
    as (pre & Hg & Hs & Hw & _ & _ & ->).
  rewrite (Hfail retry_count) by lia. cbn [fst snd]. rewrite !count_app.
  destruct (IH (S retry_count)) as (-> & -> & ->).
  { intros j ? ?. apply Hfail; lia. }
  split_and!; [f_equal; lia|lia|lia].
Qed.

Lemma retry_loop_success self w remaining retry_count d :
  (retry_loop self w remaining retry_count).1.1 = Some d →
  write_ok w = true
  ∧ WriteFile (sp_name self) (sp_car_name self) d
    ∈ (retry_loop self w remaining retry_count).2
  ∧ ∃ k, retry_count ≤ k ∧ k < retry_count + remaining ∧ attempt w k = Some d.
Proof.
  revert retry_count. induction remaining as [|remaining IH]; intros retry_count; [done|].
  destruct (retry_loop_attempt self w remaining retry_count)
    as (pre & _ & _ & _ & _ & _ & ->).
  destruct (attempt w retry_count) as [data|] eqn:Ha; cbn [fst snd].
  - destruct (save_data_events self w data) as (_ & _ & _ & -> & Hin).
    destruct (write_ok w); [|done]. intros [= ->].
    split_and!; [done| |exists retry_count; split_and!; [lia|lia|done]].
    apply elem_of_app. by right.
  - intros Hd. destruct (IH (S retry_count) Hd) as (Hw & Hin & k & ? & ? & ?).
    split_and!; [done| |exists k; split_and!; [lia|lia|done]].
    apply elem_of_app. by right.
Qed.

Lemma extract_car_info_truthy page d :
  (extract_car_info page).1 = Some d → dict_truthy d = true.
Proof.
  unfold extract_car_info.
  destruct (settle_ok page); [|done]. cbn [negb].
  destruct (if nonempty (car_styles_primary page) then _ else _) as [car_styles o_styles].
  destruct (nonempty car_styles); [|done]. cbn [negb].
  destruct (collect_names 1 car_styles ∅) as [[car_names d0] o_names].
  destruct (if nonempty (param_rows_primary page) then _ else _) as [param_rows o_rows].
  destruct (nonempty param_rows); [|done]. cbn [negb].
  destruct (process_rows car_names param_rows d0) as [d1 o_params].
  destruct (dict_truthy d1) eqn:Ht; [|done]. by intros [= <-].
Qed.

Lemma attempt_Some w k d :
  attempt w k = Some d ↔
  ∃ page, goto w k = NavPage page
          ∧ (wait_for_page_load page).1 = true
          ∧ (extract_car_info page).1 = Some d.
Proof.
  unfold attempt. destruct (goto w k) as [|page] eqn:Hg.
  { split; [done|]. by intros (p & [=] & _). }
  destruct (wait_for_page_load page).1 eqn:Hr.
  2:{ split; [done|]. intros (p & [= <-] & Hp & _). congruence. }
  destruct (extract_car_info page).1 as [data|] eqn:Hx.
  2:{ split; [done|]. intros (p & [= <-] & _ & Hp). congruence. }
  assert (dict_truthy data = true) as ->.
  2:{ split; [intros [= <-]; eauto|]. intros (p & [= <-] & _ & Hp). congruence. }
  by apply extract_car_info_truthy in Hx.
Qed.

Lemma run_session_ok self w :
  start_ok w = true → launch_ok w = true → context_ok w = true → close_ok w = true →
  run self w =
    (Returned (retry_loop self w max_retries 0).1.1,
     ([PlaywrightStart; BrowserLaunch; NewContext]
      ++ (retry_loop self w max_retries 0).2
      ++ (if max_retries <=? (retry_loop self w max_retries 0).1.2
          then [Print (MMaxRetries (sp_car_name self))] else []))
     ++ [BrowserClose; PlaywrightStop]).
Proof.
  intros Hs Hl Hc Hx. unfold run, run_body. rewrite Hs, Hl, Hc, Hx. cbn [negb].
  by destruct (retry_loop self w max_retries 0) as [[r n] ev].
Qed.

(** The events of [run] outside the loop hold no navigation, no sleep and no
    file write; the loop is run or it is not. *)
Lemma run_counts self w :
  ∃ looped : bool, ∀ p,
    p PlaywrightStart = false → p BrowserLaunch = false → p NewContext = false →
    p BrowserClose = false → p PlaywrightStop = false → (∀ m, p (Print m) = false) →
    count p (run self w).2
    = if looped then count p (retry_loop self w max_retries 0).2 else 0.
Proof.
  unfold run, run_body.
  destruct (start_ok w); cbn [negb fst snd].
  2:{ exists false. intros p H1 H2 H3 H4 H5 H6. unfold count. simpl. by rewrite H1, H6. }
  destruct (launch_ok w); cbn [negb fst snd].
  2:{ exists false. intros p H1 H2 H3 H4 H5 H6. unfold count. simpl.
      by rewrite H1, H2, H6. }
  destruct (context_ok w); cbn [negb fst snd].
  2:{ exists false. intros p H1 H2 H3 H4 H5 H6.
      destruct (close_ok w); cbn [negb fst snd]; unfold count; simpl;
        by rewrite H1, H2, H3, H6, ?H4, ?H5. }
  exists true. intros p H1 H2 H3 H4 H5 H6.
  destruct (retry_loop self w max_retries 0) as [[r n] ev]. cbn [negb fst snd].
  assert (count p [PlaywrightStart; BrowserLaunch; NewContext] = 0) as Ha
    by (unfold count; simpl; by rewrite H1, H2, H3).
  assert (count p (if max_retries <=? n
                   then [Print (MMaxRetries (sp_car_name self))] else []) = 0) as Hb
    by (destruct (max_retries <=? n); unfold count; simpl; by rewrite ?H6).
  destruct (close_ok w); cbn [negb fst snd]; rewrite !count_app, Ha, Hb;
    unfold count at 2; simpl; rewrite ?H4, ?H5; simpl; lia.
Qed.

(** Whatever the unit meets, [run] navigates at most [max_retries] times,
    sleeps at most once per navigation, and writes the unit's file at most
    once. *)
Theorem run_bounds (self : CarSpider) (w : World) :
  count is_goto (run self w).2 ≤ max_retries
  ∧ count is_sleep (run self w).2 ≤ count is_goto (run self w).2
  ∧ count is_write (run self w).2 ≤ 1.
Proof.
  destruct (retry_loop_bounds self w max_retries 0) as (Hg & Hs & Hw).
  destruct (run_counts self w) as [looped H].
  rewrite (H is_goto), (H is_sleep), (H is_write) by done.
  destruct looped; split_and!; lia.
Qed.

(** When the session starts and the attempts before the k-th give nothing
    while the k-th, within the bound, gives a dictionary, [run] navigates
    k + 1 times, writes once and returns that dictionary, or [None] when
    the write fails; it does not go on to later attempts. *)
Theorem run_first_success (self : CarSpider) (w : World) (k : nat)
    (data : ExtractionResult) :
  start_ok w = true → launch_ok w = true → context_ok w = true → close_ok w = true →
  k < max_retries →
  (∀ j, j < k → attempt w j = None) →
  attempt w k = Some data →
  (run self w).1 = Returned (if write_ok w then Some data else None)
  ∧ count is_goto (run self w).2 = S k
  ∧ count is_write (run self w).2 = 1.
Proof.
  intros Hs Hl Hc Hx Hk Hfail Hok.
  destruct (run_counts self w) as [looped H].
  pose proof (H is_goto) as Hg. pose proof (H is_write) as Hw. clear H.
  rewrite run_session_ok in * by done. cbn [fst snd] in *.
  destruct (retry_loop_first self w max_retries 0 k data) as (Hr & Hgo & Hwr);
    [lia|lia|by intros; apply Hfail|done|].
  destruct looped.
  - rewrite Hg, Hw, Hr, Hgo, Hwr by done. split_and!; [done|f_equal; lia|done].
  - exfalso. specialize (Hg ltac:(done) ltac:(done) ltac:(done) ltac:(done)
                            ltac:(done) ltac:(done)).
    rewrite !count_app, Hgo in Hg. lia.
Qed.

Lemma run_first_success_witness :
  (run Sample.spider1
     (Sample.world_of
        (λ n, match n with 0 => NavRaises | _ => NavPage Sample.page3 end) true)).1
  = Returned (Some Sample.data3).
Proof.
  apply (run_first_success Sample.spider1
           (Sample.world_of
              (λ n, match n with 0 => NavRaises | _ => NavPage Sample.page3 end) true)
           1 Sample.data3); try reflexivity.
  - unfold max_retries. lia.
  - intros j Hj. assert (j = 0) as -> by lia. reflexivity.
Defined.

(** When the session starts and none of the first [max_retries] attempts
    gives a dictionary, whatever the reason (navigation raising, no
    container visible, extraction failing), [run] navigates exactly
    [max_retries] times, writes nothing, reports the exhaustion and returns
    [None]. *)
Theorem run_exhausted (self : CarSpider) (w : World) :
  start_ok w = true → launch_ok w = true → context_ok w = true → close_ok w = true →
  (∀ j, j < max_retries → attempt w j = None) →
  (run self w).1 = Returned None
  ∧ count is_goto (run self w).2 = max_retries
  ∧ count is_write (run self w).2 = 0
  ∧ Print (MMaxRetries (sp_car_name self)) ∈ (run self w).2.
Proof.
  intros Hs Hl Hc Hx Hfail.
  destruct (run_counts self w) as [looped H].
  pose proof (H is_goto) as Hg. pose proof (H is_write) as Hw. clear H.
  rewrite run_session_ok in * by done. cbn [fst snd] in *.
  destruct (retry_loop_exhaust self w max_retries 0) as (Hr & Hgo & Hwr);
    [by intros; apply Hfail|].
  split_and!.
  - by rewrite Hr.
  - destruct looped; [by rewrite Hg, Hgo|].
    specialize (Hg ltac:(done) ltac:(done) ltac:(done) ltac:(done)
                   ltac:(done) ltac:(done)).
    rewrite !count_app, Hgo in Hg. unfold max_retries in Hg. lia.
  - destruct looped; [by rewrite Hw, Hwr | by apply Hw].
  - rewrite Hr. cbn [snd]. rewrite Nat.leb_refl.
    rewrite !elem_of_app. left. right. right. by left.
Qed.

Lemma run_exhausted_witness :
  count is_goto
    (run Sample.spider1 (Sample.world_of (λ _, NavPage Sample.page_unready) true)).2
  = max_retries.
Proof.
  apply (run_exhausted Sample.spider1
           (Sample.world_of (λ _, NavPage Sample.page_unready) true));
    try reflexivity.
Defined.

Lemma run_returns_loop self w d :
  (run self w).1 = Returned (Some d) →
  (retry_loop self w max_retries 0).1.1 = Some d
  ∧ ∀ e, e ∈ (retry_loop self w max_retries 0).2 → e ∈ (run self w).2.
Proof.
  unfold run, run_body.
  destruct (start_ok w); cbn [negb fst snd]; [|done].
  destruct (launch_ok w); cbn [negb fst snd]; [|done].
  destruct (context_ok w); cbn [negb fst snd].
  2:{ by destruct (close_ok w). }
  destruct (retry_loop self w max_retries 0) as [[r n] ev]. cbn [negb fst snd].
  destruct (close_ok w); cbn [negb fst snd]; [|done].
  intros [= ->]. split; [done|]. intros e He. find_in_trace.
Qed.

(** [run] returns a dictionary only if it was able to write it: the
    dictionary is the one [extract_car_info] gave on a page that one of the
    first [max_retries] navigations reached and on which a container was
    visible, it is not empty, and the file of the spider's brand and model
    was written with it. *)
Theorem run_result_written (self : CarSpider) (w : World) (d : ExtractionResult) :
  (run self w).1 = Returned (Some d) →
  write_ok w = true
  ∧ dict_truthy d = true
  ∧ WriteFile (sp_name self) (sp_car_name self) d ∈ (run self w).2
  ∧ ∃ k page, k < max_retries
              ∧ goto w k = NavPage page
              ∧ (wait_for_page_load page).1 = true
              ∧ (extract_car_info page).1 = Some d.
Proof.
  intros Hrun.
  destruct (run_returns_loop self w d Hrun) as (Hr & Hev).
  destruct (retry_loop_success self w max_retries 0 d Hr) as (Hw & Hin & k & _ & Hk & Ha).
  apply attempt_Some in Ha as (page & Hg & Hready & Hx).
  split_and!; [done|by eapply extract_car_info_truthy|by apply Hev|].
  exists k, page. split_and!; [lia|done..].
Qed.

Lemma run_result_written_witness :
  write_ok (Sample.world_of (λ _, NavPage Sample.page3) true) = true
  ∧ dict_truthy Sample.data3 = true
  ∧ WriteFile (sp_name Sample.spider1) (sp_car_name Sample.spider1) Sample.data3
    ∈ (run Sample.spider1 (Sample.world_of (λ _, NavPage Sample.page3) true)).2
  ∧ ∃ k page, k < max_retries
              ∧ goto (Sample.world_of (λ _, NavPage Sample.page3) true) k = NavPage page
              ∧ (wait_for_page_load page).1 = true
              ∧ (extract_car_info page).1 = Some Sample.data3.
Proof.
  apply (run_result_written Sample.spider1
           (Sample.world_of (λ _, NavPage Sample.page3) true) Sample.data3).
  reflexivity.
Defined.

(** ** A launch that fails *)

(** When the session starts but the browser cannot be launched, [run] does
    not return: [self.browser] is unbound in the [finally] clause, so an
    exception leaves [run] after the first print, no navigation is made and
    neither [close] nor [stop] is called; [process_car] catches it, prints
    its own error and gives [None]. *)
Theorem launch_failure_raises (car_info : CarInfo) (w : World) (url_ : pystr) :
  url car_info = Some url_ → truthy url_ = true →
  start_ok w = true → launch_ok w = false →
  let spider := new_spider url_ (get_or unknown_brand (name car_info))
                  (get_or unknown_model (subname car_info)) in
  run spider w = (Raised, [PlaywrightStart; BrowserLaunch; Print MRunFailed])
  ∧ (process_car car_info w).1 = None
  ∧ last (process_car car_info w).2
    = Some (Print (MCarError (get_or unknown_model (subname car_info))))
  ∧ count is_close (process_car car_info w).2 = 0
  ∧ PlaywrightStop ∉ (process_car car_info w).2.
Proof.
  intros Hu Ht Hs Hl spider.
  assert (run spider w = (Raised, [PlaywrightStart; BrowserLaunch; Print MRunFailed]))
    as Hrun by (unfold run, run_body; by rewrite Hs, Hl).
  split; [done|]. unfold process_car. rewrite Hu, Ht. fold spider. rewrite Hrun.
  cbn [fst snd]. split_and!; [done|done|done|].
  intros Hin. repeat (apply elem_of_cons in Hin as [Heq|Hin]; [discriminate Heq|]).
  by apply elem_of_nil in Hin.
Qed.

Lemma launch_failure_raises_witness :
  (process_car Sample.unit1
     {| start_ok := true; launch_ok := false; context_ok := true;
        goto := λ _, NavPage Sample.page3; write_ok := true; close_ok := true |}).1
  = None.
Proof.
  apply (launch_failure_raises Sample.unit1
           {| start_ok := true; launch_ok := false; context_ok := true;
              goto := λ _, NavPage Sample.page3; write_ok := true; close_ok := true |}
           Sample.url1); reflexivity.
Defined.

(** ** The batch *)

Lemma process_units_cons car_info w rest all_cars_data :
  process_units ((car_info, w) :: rest) all_cars_data =
  let all_cars_data' :=
    match (process_car car_info w).1 with
    | Some data =>
        if dict_truthy data
        then add_car all_cars_data (get_or unknown_brand (name car_info))
               (get_or unknown_model (subname car_info)) data
        else all_cars_data
    | None => all_cars_data
    end in
  ((process_units rest all_cars_data').1,
   (process_car car_info w).2 ++ (process_units rest all_cars_data').2).
Proof.
  cbn [process_units]. destruct (process_car car_info w) as [car_data ev].
  cbn [fst snd]. by destruct (process_units rest _).
Qed.

Lemma process_units_split l1 l2 all_cars_data :
  process_units (l1 ++ l2) all_cars_data =
  ((process_units l2 (process_units l1 all_cars_data).1).1,
   (process_units l1 all_cars_data).2
   ++ (process_units l2 (process_units l1 all_cars_data).1).2).
Proof.
  revert all_cars_data. induction l1 as [|[car_info w] l1 IH]; intros all_cars_data.
  { simpl. by destruct (process_units l2 all_cars_data). }
  rewrite <-app_comm_cons, !process_units_cons. cbv zeta. rewrite IH. cbn [fst snd].
  by rewrite app_assoc.
Qed.

Lemma get_car_add_car all_cars_data b m data b' m' :
  get_car (add_car all_cars_data b m data) b' m'
  = if decide (b = b' ∧ m = m') then Some data else get_car all_cars_data b' m'.
Proof.
  unfold add_car, get_car.
  destruct (all_cars_data !! b) as [models|] eqn:Hb.
  - rewrite Hb. destruct (decide (b = b')) as [<-|Hne].
    + rewrite lookup_insert_eq, Hb. simpl.
      destruct (decide (m = m')) as [<-|Hnm].
      * rewrite lookup_insert_eq. by rewrite decide_True.
      * rewrite lookup_insert_ne by done. rewrite decide_False; [done|naive_solver].
    + rewrite lookup_insert_ne by done. rewrite decide_False; [done|naive_solver].
  - rewrite lookup_insert_eq. destruct (decide (b = b')) as [<-|Hne].
    + rewrite lookup_insert_eq, Hb. simpl.
      destruct (decide (m = m')) as [<-|Hnm].
      * rewrite lookup_insert_eq. by rewrite decide_True.
      * rewrite lookup_insert_ne by done. rewrite lookup_empty.
        rewrite decide_False; [done|naive_solver].
    + rewrite !lookup_insert_ne by done. rewrite decide_False; [done|naive_solver].
Qed.

Lemma extract_car_info_clean page d :
  (extract_car_info page).1 = Some d → clean d.
Proof.
  intros (_ & _ & _ & ->)%extract_car_info_Some.
  apply process_rows_clean, collect_names_clean.
  intros c ps l v Hl. by rewrite lookup_empty in Hl.
Qed.

Lemma run_Some self w d :
  (run self w).1 = Returned (Some d) → dict_truthy d = true ∧ clean d.
Proof.
  intros Hrun. destruct (run_returns_loop self w d Hrun) as (Hr & _).
  destruct (retry_loop_success self w max_retries 0 d Hr) as (_ & _ & k & _ & _ & Ha).
  apply attempt_Some in Ha as (page & _ & _ & Hx).
  split; [by eapply extract_car_info_truthy | by eapply extract_car_info_clean].
Qed.

Lemma process_car_Some car_info w d :
  (process_car car_info w).1 = Some d → dict_truthy d = true ∧ clean d.
Proof.
  unfold process_car. destruct (url car_info) as [url_|]; [|done].
  destruct (truthy url_); [|done].
  set (spider := new_spider _ _ _).
  pose proof (run_Some spider w d) as H.
  destruct (run spider w) as [[r|] ev]; cbn [fst snd] in *; [|done].
  intros ->. by apply H.
Qed.

(** What a unit does to the combined data: it sets the entry of its brand
    and model when [process_car] gives a dictionary, and nothing else. *)
Lemma process_units_cons_get car_info w rest all_cars_data :
  ∃ all_cars_data',
    (process_units ((car_info, w) :: rest) all_cars_data).1
    = (process_units rest all_cars_data').1
    ∧ ∀ b m, get_car all_cars_data' b m =
             match (process_car car_info w).1 with
             | Some data =>
                 if decide (get_or unknown_brand (name car_info) = b
                            ∧ get_or unknown_model (subname car_info) = m)
                 then Some data else get_car all_cars_data b m
             | None => get_car all_cars_data b m
             end.
Proof.
  rewrite process_units_cons. cbv zeta. cbn [fst].
  eexists. split; [done|]. intros b m.
  destruct (process_car car_info w).1 as [data|] eqn:Hc; [|done].
  apply process_car_Some in Hc as [-> _]. apply get_car_add_car.
Qed.

Lemma process_units_sound l all_cars_data b m d :
  get_car (process_units l all_cars_data).1 b m = Some d →
  get_car all_cars_data b m = Some d
  ∨ ∃ car_info w, (car_info, w) ∈ l
                  ∧ get_or unknown_brand (name car_info) = b
                  ∧ get_or unknown_model (subname car_info) = m
                  ∧ (process_car car_info w).1 = Some d.
Proof.
  revert all_cars_data. induction l as [|[car_info w] rest IH]; intros all_cars_data.
  { by left. }
  destruct (process_units_cons_get car_info w rest all_cars_data) as (agg' & -> & Hget).
  intros [Hd|(ci & w' & Hin & ? & ? & ?)]%IH.
  - rewrite Hget in Hd. destruct (process_car car_info w).1 as [data|] eqn:Hc; [|by left].
    destruct (decide _) as [[? ?]|_]; [|by left].
    injection Hd as ->. right. exists car_info, w. split_and!; try done. by left.
  - right. exists ci, w'. split_and!; try done. by right.
Qed.

(** Every entry of the combined data of a batch comes from a unit of the
    list with that brand and model, is the dictionary [process_car] gave for
    it, has at least one column, and is sanitized. *)
Theorem aggregate_sound (car_list : list (CarInfo * World))
    (all_cars_data : AggregateDataset) (b m : pystr) (d : ExtractionResult) :
  (process_all_cars car_list).1 = Some all_cars_data →
  get_car all_cars_data b m = Some d →
  dict_truthy d = true ∧ clean d
  ∧ ∃ car_info w, (car_info, w) ∈ car_list
                  ∧ get_or unknown_brand (name car_info) = b
                  ∧ get_or unknown_model (subname car_info) = m
                  ∧ (process_car car_info w).1 = Some d.
Proof.
  unfold process_all_cars. destruct (nonempty car_list); [|done]. cbn [negb].
  pose proof (process_units_sound car_list ∅ b m d) as H.
  destruct (process_units car_list ∅) as [agg ev]. cbn [fst] in *.
  intros [= <-] Hget. destruct (H Hget) as [Hempty|(ci & w & Hin & Hb & Hm & Hc)].
  { unfold get_car in Hempty. by rewrite lookup_empty in Hempty. }
  destruct (process_car_Some ci w d Hc). split_and!; try done. eauto 10.
Qed.

Lemma process_units_keep l all_cars_data b m :
  (∀ car_info w, (car_info, w) ∈ l →
     get_or unknown_brand (name car_info) = b →
     get_or unknown_model (subname car_info) = m →
     (process_car car_info w).1 = None) →
  get_car (process_units l all_cars_data).1 b m = get_car all_cars_data b m.
Proof.
  revert all_cars_data. induction l as [|[car_info w] rest IH]; intros all_cars_data Hl.
  { done. }
  destruct (process_units_cons_get car_info w rest all_cars_data) as (agg' & -> & Hget).
  rewrite IH by (intros; eapply Hl; [by right|done..]).
  rewrite Hget. destruct (process_car car_info w).1 as [data|] eqn:Hc; [|done].
  destruct (decide _) as [[? ?]|_]; [|done].
  rewrite (Hl car_info w) in Hc; [done|by left|done..].
Qed.

(** The entry of a brand and model in the combined data is the dictionary of
    the last unit of that brand and model for which [process_car] gave one:
    units after it with the same brand and model that give nothing leave it,
    and any unit before it is overwritten. *)
Theorem aggregate_last_wins (l1 l2 : list (CarInfo * World)) (car_info : CarInfo)
    (w : World) (d : ExtractionResult) (all_cars_data : AggregateDataset) :
  (process_car car_info w).1 = Some d →
  (∀ car_info' w', (car_info', w') ∈ l2 →
     get_or unknown_brand (name car_info') = get_or unknown_brand (name car_info) →
     get_or unknown_model (subname car_info') = get_or unknown_model (subname car_info) →
     (process_car car_info' w').1 = None) →
  get_car (process_units (l1 ++ (car_info, w) :: l2) all_cars_data).1
    (get_or unknown_brand (name car_info)) (get_or unknown_model (subname car_info))
  = Some d.
Proof.
  intros Hc Hl2. rewrite process_units_split. cbn [fst].
  destruct (process_units_cons_get car_info w l2 (process_units l1 all_cars_data).1)
    as (agg' & -> & Hget).
  rewrite process_units_keep by done. rewrite Hget, Hc. by rewrite decide_True.
Qed.

Lemma aggregate_sound_witness :
  dict_truthy Sample.data3 = true ∧ clean Sample.data3
  ∧ ∃ car_info w,
      (car_info, w) ∈ [(Sample.unit1, Sample.world_of (λ _, NavPage Sample.page3) true)]
      ∧ get_or unknown_brand (name car_info) = Sample.A
      ∧ get_or unknown_model (subname car_info) = Sample.B
      ∧ (process_car car_info w).1 = Some Sample.data3.
Proof.
  apply (aggregate_sound
           [(Sample.unit1, Sample.world_of (λ _, NavPage Sample.page3) true)]
           {[Sample.A := {[Sample.B := Sample.data3]}]});
    reflexivity.
Defined.

Lemma aggregate_last_wins_witness :
  get_car
    (process_units
       ([] ++ (Sample.unit1, Sample.world_of (λ _, NavPage Sample.page3) true)
           :: [(Sample.unit_no_url, Sample.world_of (λ _, NavRaises) true)]) ∅).1
    (get_or unknown_brand (name Sample.unit1))
    (get_or unknown_model (subname Sample.unit1))
  = Some Sample.data3.
Proof.
  apply (aggregate_last_wins []
           [(Sample.unit_no_url, Sample.world_of (λ _, NavRaises) true)]
           Sample.unit1 (Sample.world_of (λ _, NavPage Sample.page3) true)
           Sample.data3 ∅).
  - reflexivity.
  - intros car_info' w' Hin _ _.
    apply elem_of_cons in Hin as [[= -> ->]|Hin]; [reflexivity|].
    by apply elem_of_nil in Hin.
Defined.

(** ** Browsers launched and closed over a batch *)

Lemma run_browser_counts self w :
  count is_close (run self w).2 ≤ count is_launch (run self w).2
  ∧ count is_launch (run self w).2 ≤ 1.
Proof.
  unfold run, run_body.
  destruct (start_ok w); cbn [negb fst snd]; [|vm_compute; lia].
  destruct (launch_ok w); cbn [negb fst snd]; [|vm_compute; lia].
  destruct (context_ok w); cbn [negb fst snd].
  2:{ destruct (close_ok w); vm_compute; lia. }
  destruct (retry_loop_no_browser self w max_retries 0) as [Hla Hcl].
  destruct (retry_loop self w max_retries 0) as [[r k] ev]. cbn [negb fst snd] in *.
  destruct (close_ok w), (max_retries <=? k); cbn [negb fst snd];
    rewrite !count_app, Hla, Hcl; vm_compute; lia.
Qed.

Lemma process_car_browser_counts car_info w :
  count is_close (process_car car_info w).2 ≤ count is_launch (process_car car_info w).2
  ∧ count is_launch (process_car car_info w).2 ≤ 1.
Proof.
  unfold process_car. destruct (url car_info) as [url_|]; [|vm_compute; lia].
  destruct (truthy url_); [|vm_compute; lia].
  set (spider := new_spider _ _ _).
  pose proof (run_browser_counts spider w) as H.
  destruct (run spider w) as [[r|] ev]; cbn [fst snd] in *;
    rewrite !count_app;
    change (count is_close [Print _; NewSpider _ _ _]) with 0;
    change (count is_launch [Print _; NewSpider _ _ _]) with 0;
    try change (count is_close [Print _]) with 0;
    try change (count is_launch [Print _]) with 0; lia.
Qed.

(** Over a batch, whatever the units meet, no browser is closed that was not
    launched before, and at most one launch is made per unit of the list. *)
Theorem batch_browser_balance (car_list : list (CarInfo * World))
    (all_cars_data : AggregateDataset) :
  count is_close (process_units car_list all_cars_data).2
  ≤ count is_launch (process_units car_list all_cars_data).2
  ∧ count is_launch (process_units car_list all_cars_data).2 ≤ length car_list.
Proof.
  revert all_cars_data. induction car_list as [|[car_info w] rest IH]; intros all_cars_data.
  { vm_compute. lia. }
  rewrite process_units_cons. cbv zeta. cbn [snd length]. rewrite !count_app.
  destruct (process_car_browser_counts car_info w) as [? ?].
  match goal with |- context [process_units rest ?a] => destruct (IH a) as [? ?] end.
  lia.
Qed.

(** ** The files written *)





(** ** Which units reach the browser *)

(** [process_car] starts a session exactly for the records whose [url] is
    present and not empty; for the others it makes no call at all. *)
Theorem session_started_iff (car_info : CarInfo) (w : World) :
  PlaywrightStart ∈ (process_car car_info w).2 ↔
  ∃ url_, url car_info = Some url_ ∧ url_ ≠ [].
Proof.
  unfold process_car. destruct (url car_info) as [url_|].
  2:{ split; [intros H; cbn [snd] in H; split_trace; discriminate | by intros (? & ? & _)]. }
  destruct url_ as [|ch url_]; cbn [truthy].
  { split; [intros H; cbn [snd] in H; split_trace; discriminate|].
    by intros (? & [= <-] & ?). }
  set (spider := new_spider _ _ _). split; [eauto|]. intros _.
  assert (PlaywrightStart ∈ (run spider w).2) as Hrun.
  { unfold run, run_body.
    destruct (start_ok w); cbn [negb fst snd]; [|by left].
    destruct (launch_ok w); cbn [negb fst snd]; [|by left].
    destruct (context_ok w); cbn [negb fst snd].
    { destruct (retry_loop spider w max_retries 0) as [[r k] ev]. cbn [negb fst snd].
      destruct (close_ok w); cbn [negb fst snd]; by left. }
    destruct (close_ok w); cbn [negb fst snd]; by left. }
  destruct (run spider w) as [[r|] ev]; cbn [fst snd] in *; find_in_trace.
Qed.

(** ** Entries are overwritten, never removed *)

Lemma set_param_keeps d c l v d' c' l' :
  set_param d c l v = Some d' →
  is_Some (get_param d c' l') → is_Some (get_param d' c' l').
Proof.
  unfold set_param, get_param. destruct (d !! c) as [ps|] eqn:Hc; [|done].
  intros [= <-]. destruct (decide (c = c')) as [<-|Hne].
  - rewrite lookup_insert_eq, Hc. simpl. destruct (decide (l = l')) as [<-|Hnl].
    + rewrite lookup_insert_eq. eauto.
    + by rewrite lookup_insert_ne.
  - by rewrite lookup_insert_ne.
Qed.

Lemma align_exact_keeps l pairs d c' l' :
  is_Some (get_param d c' l') → is_Some (get_param (align_exact l pairs d).1 c' l').
Proof.
  revert d. induction pairs as [|[c cell] rest IH]; intros d H; [done|].
  simpl.
  assert (is_Some (get_param (store_exact l c cell d).1 c' l')) as H1.
  { unfold store_exact. destruct cell as [text|]; [|done].
    destruct (valid_param _ _); [|done].
    destruct (set_param _ _ _ _) eqn:Hs; [|done]. eauto using set_param_keeps. }
  destruct (store_exact _ _ _ _) as [d1 o1]. specialize (IH d1 H1).
  by destruct (align_exact _ _ _).
Qed.

(** A pair a column holds before some rows are processed is still there
    after them, under the same parameter name, with the old value or with
    one a later row wrote over it: no row removes an entry. *)
Theorem rows_keep_entries (car_names : list pystr) (param_rows : list Row)
    (d : ExtractionResult) (car_name param_name : pystr) :
  is_Some (get_param d car_name param_name) →
  is_Some (get_param (process_rows car_names param_rows d).1 car_name param_name).
Proof.
  revert d. induction param_rows as [|row rest IH]; intros d H; [done|].
  simpl.
  assert (is_Some (get_param (process_row car_names row d).1 car_name param_name)) as H1.
  { destruct row as [|[[text|]|] value_cells]; try done.
    rewrite process_row_data. by apply align_exact_keeps. }
  destruct (process_row _ _ _) as [d1 o1]. specialize (IH d1 H1).
  by destruct (process_rows _ _ _).
Qed.

Lemma rows_keep_entries_witness :
  is_Some (get_param
             (process_rows [Sample.A; Sample.B; Sample.C] [Sample.row2] Sample.data3).1
             Sample.A Sample.length_mm).
Proof.
  apply (rows_keep_entries [Sample.A; Sample.B; Sample.C] [Sample.row2] Sample.data3).
  vm_compute. eauto.
Defined.
